(** * REMODE publisher: point-cloud projection and convergence rendering

    A shallow embedding of [src/publisher.cpp] (class [rmd::Publisher]) and
    the properties of its three operations: [publishPointCloud],
    [publishPointCloudRGB] and [publishConvergenceMap].

    Conventions of the embedding.
    - A [cv::Mat] is its header ([rows], [cols]) and its row-major buffer,
      without padding between rows.  [at<T>(y, x)] is cell [y * cols + x]
      of the buffer and checks neither [y] nor [x]: an access outside the
      grid that stays inside the buffer reads or writes the cell it falls
      on.  An access outside the buffer is undefined in the source and is
      [None] here.  Every operation therefore returns an [option].
    - Grids are values.  The header a getter returns shares its buffer with
      the depth map, but the only buffer the publisher writes is that of
      [colored_], which [create] and [cvtColor] allocate for it alone.
    - A [float] is its 32-bit pattern.  The arithmetic the source takes from
      headers outside the file (CUDA's [float3] helpers, [rmd::SE3]) is a
      parameter, the class [FloatArith].
    - The enumerators of [rmd::ConvergenceState] come from
      [rmd/seed_matrix.cuh]; they are the parameter [ConvergenceState].
    - The ROS side is explicit: what the node handle and the clock answer
      during a call is an input [Ros], what is published is returned as a
      list of messages. *)

From Stdlib Require Import ZArith.
From Stdlib.Strings Require Import Byte.
From Stdlib.Floats Require Import SpecFloat.
From stdpp Require Import base tactics option list list_numbers strings.

Local Open Scope Z_scope.

(** ** Grids: [cv::Mat] *)

Record Mat (T : Type) : Type := mkMat {
  rows : Z;
  cols : Z;
  data : list T
}.
Arguments mkMat {T} _ _ _.
Arguments rows {T} _.
Arguments cols {T} _.
Arguments data {T} _.

(** Offset of cell [(y, x)] in the buffer of a grid with [c] columns. *)
Definition Mat_index (c y x : Z) : nat := Z.to_nat (y * c + x).

(** [(y, x)] is a pixel of the grid. *)
Definition Mat_inside {T} (m : Mat T) (y x : Z) : Prop :=
  0 ≤ y < rows m ∧ 0 ≤ x < cols m.

(** [m.at<T>(y, x)] as an rvalue: the cell at offset [y * cols + x], if the
    buffer has one; [rows] is not consulted and [x] is not compared with
    [cols]. *)
Definition Mat_at {T} (m : Mat T) (y x : Z) : option T :=
  if decide (0 ≤ y * cols m + x)
  then data m !! Mat_index (cols m) y x
  else None.

(** [m.at<T>(y, x) = v]: the same cell, written. *)
Definition Mat_put {T} (m : Mat T) (y x : Z) (v : T) : option (Mat T) :=
  if decide (0 ≤ y * cols m + x ∧
             (Mat_index (cols m) y x < length (data m))%nat)
  then Some (mkMat (rows m) (cols m) (<[Mat_index (cols m) y x := v]> (data m)))
  else None.

(** [m.create(r, c, type)]: a buffer of [r * c] cells whose content is
    whatever the allocator left there, here [junk]. *)
Definition Mat_create {T} (r c : Z) (junk : nat → T) : Mat T :=
  mkMat r c (junk <$> seq 0 (Z.to_nat (r * c))).

(** The empty header [cv::Mat()]: what a getter returns for a grid that was
    never set. *)
Definition Mat_empty {T} : Mat T := mkMat 0 0 [].

(** ** Scalars and pixels *)

(** [uchar] / [uint8_t]. *)
Definition uchar : Type := byte.

(** Integral promotion of a [uchar]: [(int)b], [(uint32_t)b]. *)
Definition uchar_to_Z (b : uchar) : Z := Z.of_N (Byte.to_N b).

(** A [float], as its 32 bits. *)
Definition float : Type := Z.

(** The literal [1.0f]. *)
Definition one_f : float := 0x3F800000.

(** [*reinterpret_cast<float*>(&rgb)] for a [uint32_t rgb]: the same 32 bits
    read as a [float]. *)
Definition reinterpret_as_float (rgb : Z) : float := rgb.

(** [cv::Vec3b]: three interleaved channels, [v[0]], [v[1]], [v[2]]. *)
Record Vec3b : Type := mkVec3b { ch0 : uchar; ch1 : uchar; ch2 : uchar }.

Definition set_ch0 (b : uchar) (v : Vec3b) : Vec3b := mkVec3b b (ch1 v) (ch2 v).
Definition set_ch2 (b : uchar) (v : Vec3b) : Vec3b := mkVec3b (ch0 v) (ch1 v) b.

(** CUDA's [float3] with its constructor function. *)
Record float3 : Type := make_float3 { f3_x : float; f3_y : float; f3_z : float }.

(** ** Arithmetic and enumerators declared outside the file *)

Class FloatArith : Type := {
  (** [rmd::SE3<float>] *)
  SE3 : Type;
  (** conversion of an [int] or [uint8_t] to [float] *)
  int_to_float : Z → float;
  (** [a - b] and [a / b] on [float] *)
  fsub : float → float → float;
  fdiv : float → float → float;
  (** [normalize(v)] *)
  normalize : float3 → float3;
  (** [v * s] *)
  float3_scale : float3 → float → float3;
  (** [T * v] *)
  SE3_mul : SE3 → float3 → float3
}.

Class ConvergenceState : Type := {
  CONVERGED : Z;
  DIVERGED : Z;
  CONVERGED_ne_DIVERGED : CONVERGED ≠ DIVERGED
}.

(** ** Points, clouds and messages *)

(** [PointType], a point with an intensity. *)
Record PointType : Type := mkPointType {
  p_x : float; p_y : float; p_z : float; p_intensity : float
}.

(** [PointTypeRGB], a point with a packed colour. *)
Record PointTypeRGB : Type := mkPointTypeRGB {
  q_x : float; q_y : float; q_z : float; q_rgb : float
}.

Record Header : Type := mkHeader { frame_id : string; stamp : Z }.

Record PointCloud (P : Type) : Type := mkPointCloud {
  header : Header;
  points : list P
}.
Arguments mkPointCloud {P} _ _.
Arguments header {P} _.
Arguments points {P} _.

(** [new PointCloud] *)
Definition PointCloud_new {P} : PointCloud P := mkPointCloud (mkHeader EmptyString 0) [].

Definition push_back {P} (pc : PointCloud P) (p : P) : PointCloud P :=
  mkPointCloud (header pc) (points pc ++ [p]).

Definition empty {P} (pc : PointCloud P) : bool :=
  match points pc with [] => true | _ :: _ => false end.

Definition set_header {P} (h : Header) (pc : PointCloud P) : PointCloud P :=
  mkPointCloud h (points pc).

(** What goes out on a topic. *)
Inductive Msg : Type :=
| DepthImage (topic : string) (h : Header) (encoding : string) (image : Mat float)
| ColorImage (topic : string) (h : Header) (encoding : string) (image : Mat Vec3b)
| Cloud (topic : string) (pc : PointCloud PointType)
| CloudRGB (topic : string) (pc : PointCloud PointTypeRGB).

(** What the ROS runtime answers during one call: [nh_.ok()] and
    [ros::Time::now()] (already in the unit of the header stamp). *)
Record Ros : Type := mkRos { nh_ok : bool; time_now : Z }.

(** ** Counted loops in the error monad *)

(** [for (int i = i0; i < i0 + n; ++i) body(i)] on a state [St]; a failing
    iteration fails the loop. *)
Fixpoint for_loop {St} (n : nat) (i : Z) (body : Z → St → option St) (s : St)
  : option St :=
  match n with
  | O => Some s
  | S n' => s' ← body i s; for_loop n' (i + 1) body s'
  end.

(** [for (int i = 0; i < hi; ++i) body(i)] *)
Definition for_upto {St} (hi : Z) (body : Z → St → option St) (s : St)
  : option St :=
  for_loop (Z.to_nat hi) 0 body s.

(** [cv::cvtColor(src, dst, CV_GRAY2BGR)], OpenCV's and so outside the
    repository, as its documentation describes it: the destination takes
    the size of the source and every pixel holds the grey value in each of
    its three channels. *)
Definition cvtColor_GRAY2BGR (src : Mat uchar) : Mat Vec3b :=
  mkMat (rows src) (cols src) ((λ g, mkVec3b g g g) <$> data src).

Section Publisher.
Context `{FA : FloatArith} `{CS : ConvergenceState}.

(** ** The depth-map object read through its getters *)

Record Depthmap : Type := mkDepthmap {
  getDepthmap : Mat float;
  getConvergenceMap : Mat Z;
  getReferenceImage : Mat uchar;
  getReferenceImageRGB : Mat Vec3b;
  getReferenceMask : Mat uchar;
  getT_world_ref : SE3;
  getFx : float;
  getFy : float;
  getCx : float;
  getCy : float;
  getWidth : Z;
  getHeight : Z
}.

(** ** The publisher

    [depthmap_] is the shared depth-map object; [pc_] and [pc_rgb_] are
    the two clouds allocated by the constructor; [colored_] is the
    rendering buffer. *)
Record Publisher : Type := mkPublisher {
  depthmap_ : Depthmap;
  pc_ : PointCloud PointType;
  pc_rgb_ : PointCloud PointTypeRGB;
  colored_ : Mat Vec3b
}.

Definition with_pc (pc : PointCloud PointType) (pub : Publisher) : Publisher :=
  mkPublisher (depthmap_ pub) pc (pc_rgb_ pub) (colored_ pub).
Definition with_pc_rgb (pc : PointCloud PointTypeRGB) (pub : Publisher) : Publisher :=
  mkPublisher (depthmap_ pub) (pc_ pub) pc (colored_ pub).
Definition with_colored (m : Mat Vec3b) (pub : Publisher) : Publisher :=
  mkPublisher (depthmap_ pub) (pc_ pub) (pc_rgb_ pub) m.

(** [Publisher::Publisher(nh, depthmap)] *)
Definition Publisher_new (depthmap : Depthmap) (junk : nat → Vec3b) : Publisher :=
  mkPublisher depthmap PointCloud_new PointCloud_new
    (Mat_create (getHeight depthmap) (getWidth depthmap) junk).

(** [publishDepthmap] *)
Definition publishDepthmap (ros : Ros) (pub : Publisher)
  : option (Publisher * list Msg) :=
  let image := getDepthmap (depthmap_ pub) in
  if nh_ok ros
  then Some (pub, [DepthImage "remode/depth"
                     (mkHeader "depthmap" (time_now ros)) "32FC1" image])
  else Some (pub, []).

(** [T_world_ref * (normalize(make_float3((x-cx)/fx, (y-cy)/fy, 1.0f)) * d)] *)
Definition back_project (dm : Depthmap) (y x : Z) (d : float) : float3 :=
  let f := normalize (make_float3
                        (fdiv (fsub (int_to_float x) (getCx dm)) (getFx dm))
                        (fdiv (fsub (int_to_float y) (getCy dm)) (getFy dm))
                        one_f) in
  SE3_mul (getT_world_ref dm) (float3_scale f d).

(** Body of the pixel loop of [publishPointCloud]. *)
Definition publishPointCloud_pixel (dm : Depthmap) (y x : Z)
    (pc : PointCloud PointType) : option (PointCloud PointType) :=
  d ← Mat_at (getDepthmap dm) y x;
  let xyz := back_project dm y x d in
  s ← Mat_at (getConvergenceMap dm) y x;
  if decide (CONVERGED = s) then
    intensity ← Mat_at (getReferenceImage dm) y x;
    Some (push_back pc
            (mkPointType (f3_x xyz) (f3_y xyz) (f3_z xyz)
               (int_to_float (uchar_to_Z intensity))))
  else Some pc.

(** [publishPointCloud] *)
Definition publishPointCloud (ros : Ros) (pub : Publisher)
  : option (Publisher * list Msg) :=
  let dm := depthmap_ pub in
  let depth := getDepthmap dm in
  pc ← for_upto (rows depth) (λ y,
          for_upto (cols depth) (λ x, publishPointCloud_pixel dm y x))
        (pc_ pub);
  if negb (empty pc) then
    if nh_ok ros then
      let pc' := set_header (mkHeader "world" (time_now ros)) pc in
      Some (with_pc pc' pub, [Cloud "remode/pointcloud" pc'])
    else Some (with_pc pc pub, [])
  else Some (with_pc pc pub, []).

(** [(uint32_t)v[2] << 16 | (uint32_t)v[1] << 8 | (uint32_t)v[0]] *)
Definition pack_rgb (v : Vec3b) : Z :=
  Z.lor (Z.lor (Z.shiftl (uchar_to_Z (ch2 v)) 16)
               (Z.shiftl (uchar_to_Z (ch1 v)) 8))
        (uchar_to_Z (ch0 v)).

(** Body of the pixel loop of [publishPointCloudRGB].  The mask is read
    only when the first operand of [&&] holds. *)
Definition publishPointCloudRGB_pixel (dm : Depthmap) (y x : Z)
    (pc : PointCloud PointTypeRGB) : option (PointCloud PointTypeRGB) :=
  d ← Mat_at (getDepthmap dm) y x;
  let xyz := back_project dm y x d in
  s ← Mat_at (getConvergenceMap dm) y x;
  if decide (CONVERGED = s) then
    m ← Mat_at (getReferenceMask dm) y x;
    if decide (uchar_to_Z m = 1) then
      v ← Mat_at (getReferenceImageRGB dm) y x;
      let rgb := pack_rgb v in
      Some (push_back pc
              (mkPointTypeRGB (f3_x xyz) (f3_y xyz) (f3_z xyz)
                 (reinterpret_as_float rgb)))
    else Some pc
  else Some pc.

(** [publishPointCloudRGB] *)
Definition publishPointCloudRGB (ros : Ros) (pub : Publisher)
  : option (Publisher * list Msg) :=
  let dm := depthmap_ pub in
  let depth := getDepthmap dm in
  pc ← for_upto (rows depth) (λ y,
          for_upto (cols depth) (λ x, publishPointCloudRGB_pixel dm y x))
        (pc_rgb_ pub);
  if negb (empty pc) then
    if nh_ok ros then
      let pc' := set_header (mkHeader "world" (time_now ros)) pc in
      Some (with_pc_rgb pc' pub, [CloudRGB "remode/rgb_pointcloud" pc'])
    else Some (with_pc_rgb pc pub, [])
  else Some (with_pc_rgb pc pub, []).

(** [publishDepthmapAndPointCloud]; each of the three calls asks the
    runtime on its own. *)
Definition publishDepthmapAndPointCloud (r1 r2 r3 : Ros) (pub : Publisher)
  : option (Publisher * list Msg) :=
  '(pub1, out1) ← publishDepthmap r1 pub;
  '(pub2, out2) ← publishPointCloud r2 pub1;
  '(pub3, out3) ← publishPointCloudRGB r3 pub2;
  Some (pub3, out1 ++ out2 ++ out3).

(** Body of the pixel loop of [publishConvergenceMap]: the [switch]. *)
Definition publishConvergenceMap_pixel (convergence : Mat Z) (r c : Z)
    (colored : Mat Vec3b) : option (Mat Vec3b) :=
  s ← Mat_at convergence r c;
  if decide (s = CONVERGED) then
    v ← Mat_at colored r c;
    Mat_put colored r c (set_ch0 xff v)
  else if decide (s = DIVERGED) then
    v ← Mat_at colored r c;
    Mat_put colored r c (set_ch2 xff v)
  else Some colored.

(** [publishConvergenceMap] *)
Definition publishConvergenceMap (ros : Ros) (pub : Publisher)
  : option (Publisher * list Msg) :=
  let dm := depthmap_ pub in
  let convergence := getConvergenceMap dm in
  let ref_img := getReferenceImage dm in
  let colored0 := cvtColor_GRAY2BGR ref_img in
  colored ← for_upto (rows colored0) (λ r,
               for_upto (cols colored0) (λ c,
                 publishConvergenceMap_pixel convergence r c))
             colored0;
  let pub' := with_colored colored pub in
  if nh_ok ros
  then Some (pub', [ColorImage "remode/convergence"
                      (mkHeader "convergence_map" (time_now ros)) "bgr8" colored])
  else Some (pub', []).

End Publisher.

(** ** An instance to run the operations on examples

    IEEE 754 binary32 on bit patterns, through the standard library's
    [SpecFloat] (round to nearest even).  The theorems below hold for every
    [FloatArith]; this one only serves to evaluate the operations. *)
Module Binary32.

Definition decode (b : Z) : spec_float :=
  let s := Z.testbit b 31 in
  let e := Z.land (Z.shiftr b 23) 0xFF in
  let m := Z.land b 0x7FFFFF in
  if e =? 0 then
    if m =? 0 then S754_zero s else S754_finite s (Z.to_pos m) (-149)
  else if e =? 255 then
    if m =? 0 then S754_infinity s else S754_nan
  else S754_finite s (Z.to_pos (m + 0x800000)) (e - 150).

Definition sign_bit (s : bool) : Z := if s then 0x80000000 else 0.

Definition encode (f : spec_float) : Z :=
  match f with
  | S754_zero s => sign_bit s
  | S754_infinity s => sign_bit s + 0x7F800000
  | S754_nan => 0x7FC00000
  | S754_finite s m e =>
      if Zpos m <? 0x800000 then sign_bit s + Zpos m
      else sign_bit s + Z.shiftl (e + 150) 23 + (Zpos m - 0x800000)
  end.

Definition lift2 (op : spec_float → spec_float → spec_float) (a b : float) : float :=
  encode (op (decode a) (decode b)).

Definition add : float → float → float := lift2 (SFadd 24 128).
Definition sub : float → float → float := lift2 (SFsub 24 128).
Definition mul : float → float → float := lift2 (SFmul 24 128).
Definition div : float → float → float := lift2 (SFdiv 24 128).
Definition sqrt (a : float) : float := encode (SFsqrt 24 128 (decode a)).
Definition of_int (z : Z) : float := encode (binary_normalize 24 128 z 0 false).

Definition scale (v : float3) (s : float) : float3 :=
  make_float3 (mul (f3_x v) s) (mul (f3_y v) s) (mul (f3_z v) s).

Definition dot (a b : float3) : float :=
  add (add (mul (f3_x a) (f3_x b)) (mul (f3_y a) (f3_y b))) (mul (f3_z a) (f3_z b)).

Definition unit_vector (v : float3) : float3 :=
  scale v (div one_f (sqrt (dot v v))).

(** A rigid transform: three rows of a rotation and a translation. *)
Record transform : Type := mkTransform {
  r0 : float3; r1 : float3; r2 : float3; t : float3
}.

Definition act (T : transform) (v : float3) : float3 :=
  make_float3 (add (dot (r0 T) v) (f3_x (t T)))
              (add (dot (r1 T) v) (f3_y (t T)))
              (add (dot (r2 T) v) (f3_z (t T))).

Definition identity : transform :=
  mkTransform (make_float3 one_f 0 0) (make_float3 0 one_f 0)
              (make_float3 0 0 one_f) (make_float3 0 0 0).

#[export] Instance arith : FloatArith := {|
  SE3 := transform;
  int_to_float := of_int;
  fsub := sub;
  fdiv := div;
  normalize := unit_vector;
  float3_scale := scale;
  SE3_mul := act
|}.

(** Enumerator values for the examples. *)
#[export] Instance states : ConvergenceState :=
  {| CONVERGED := 1; DIVERGED := 3;
     CONVERGED_ne_DIVERGED := ltac:(discriminate) |}.

End Binary32.

(** ** Vocabulary of the properties *)

(** A header that describes its buffer. *)
Definition Mat_wf {T} (m : Mat T) : Prop :=
  0 ≤ rows m ∧ 0 ≤ cols m ∧ length (data m) = Z.to_nat (rows m * cols m).

Definition same_size {A B} (a : Mat A) (b : Mat B) : Prop :=
  rows a = rows b ∧ cols a = cols b.

(** One grid has the header and the buffer length of another. *)
Definition same_shape {T} (m m' : Mat T) : Prop :=
  rows m' = rows m ∧ cols m' = cols m ∧ length (data m') = length (data m).

(** The pixels [(y, x)] of an [r] by [c] grid in raster-scan order: row
    after row, each row from left to right. *)
Definition raster (r c : Z) : list (Z * Z) :=
  y ← seqZ 0 r; x ← seqZ 0 c; [(y, x)].

(** A cloud with points appended. *)
Definition extend {P} (pc : PointCloud P) (l : list P) : PointCloud P :=
  mkPointCloud (header pc) (points pc ++ l).

(** One cloud continues another: it starts with the same points. *)
Definition continues {P} (pc pc' : PointCloud P) : Prop :=
  points pc `prefix_of` points pc'.

(** Undoing the packing of a colour: the three bytes of the 32 bits of the
    colour attribute, as (R, G, B).  This is the reader's side of the
    format, written after the spec's words ("R in the high byte, G in the
    middle, B in the low byte"). *)
Definition unpack_rgb (f : float) : Z * Z * Z :=
  (Z.land (Z.shiftr f 16) 0xFF, Z.land (Z.shiftr f 8) 0xFF, Z.land f 0xFF).

Section Vocabulary.
Context `{FA : FloatArith} `{CS : ConvergenceState}.

(** What each operation reads, within the grid it iterates over. *)
Definition publishPointCloud_pre (dm : Depthmap) : Prop :=
  Mat_wf (getDepthmap dm) ∧
  Mat_wf (getConvergenceMap dm) ∧ same_size (getConvergenceMap dm) (getDepthmap dm) ∧
  Mat_wf (getReferenceImage dm) ∧ same_size (getReferenceImage dm) (getDepthmap dm).

Definition publishPointCloudRGB_pre (dm : Depthmap) : Prop :=
  Mat_wf (getDepthmap dm) ∧
  Mat_wf (getConvergenceMap dm) ∧ same_size (getConvergenceMap dm) (getDepthmap dm) ∧
  Mat_wf (getReferenceImageRGB dm) ∧ same_size (getReferenceImageRGB dm) (getDepthmap dm) ∧
  Mat_wf (getReferenceMask dm) ∧ same_size (getReferenceMask dm) (getDepthmap dm).

Definition publishConvergenceMap_pre (dm : Depthmap) : Prop :=
  Mat_wf (getReferenceImage dm) ∧
  Mat_wf (getConvergenceMap dm) ∧
  same_size (getConvergenceMap dm) (getReferenceImage dm).

(** The state of pixel [yx] is CONVERGED. *)
Definition converged (dm : Depthmap) (yx : Z * Z) : Prop :=
  Mat_at (getConvergenceMap dm) yx.1 yx.2 = Some CONVERGED.

(** The mask of pixel [yx] is 1. *)
Definition mask_is_1 (dm : Depthmap) (yx : Z * Z) : Prop :=
  uchar_to_Z <$> Mat_at (getReferenceMask dm) yx.1 yx.2 = Some 1.

#[global] Instance converged_dec dm yx : Decision (converged dm yx) :=
  ltac:(unfold converged; apply _).
#[global] Instance mask_is_1_dec dm yx : Decision (mask_is_1 dm yx) :=
  ltac:(unfold mask_is_1; apply _).

(** The pixels that pass the gate of each projection, in raster order. *)
Definition survivors (dm : Depthmap) : list (Z * Z) :=
  filter (converged dm)
         (raster (rows (getDepthmap dm)) (cols (getDepthmap dm))).

Definition survivors_rgb (dm : Depthmap) : list (Z * Z) :=
  filter (λ yx, converged dm yx ∧ mask_is_1 dm yx)
         (raster (rows (getDepthmap dm)) (cols (getDepthmap dm))).

(** The point of pixel [yx]: its back-projected depth and its intensity,
    respectively its packed colour. *)
Definition point_of (dm : Depthmap) (yx : Z * Z) : option PointType :=
  d ← Mat_at (getDepthmap dm) yx.1 yx.2;
  i ← Mat_at (getReferenceImage dm) yx.1 yx.2;
  let xyz := back_project dm yx.1 yx.2 d in
  Some (mkPointType (f3_x xyz) (f3_y xyz) (f3_z xyz)
          (int_to_float (uchar_to_Z i))).

Definition point_rgb_of (dm : Depthmap) (yx : Z * Z) : option PointTypeRGB :=
  d ← Mat_at (getDepthmap dm) yx.1 yx.2;
  v ← Mat_at (getReferenceImageRGB dm) yx.1 yx.2;
  let xyz := back_project dm yx.1 yx.2 d in
  Some (mkPointTypeRGB (f3_x xyz) (f3_y xyz) (f3_z xyz)
          (reinterpret_as_float (pack_rgb v))).

(** The points one call of each projection appends. *)
Definition projection (dm : Depthmap) : list PointType :=
  omap (point_of dm) (survivors dm).

Definition projection_rgb (dm : Depthmap) : list PointTypeRGB :=
  omap (point_rgb_of dm) (survivors_rgb dm).

(** Pixel counts over the buffers of the grids themselves. *)
Definition count_CONVERGED (convergence : Mat Z) : nat :=
  length (filter (λ s, s = CONVERGED) (data convergence)).

Definition count_CONVERGED_mask_1 (convergence : Mat Z) (mask : Mat uchar) : nat :=
  length (filter (λ sm, sm.1 = CONVERGED ∧ uchar_to_Z sm.2 = 1)
                 (zip (data convergence) (data mask))).

(** The pixel of the rendered image for state [s] over the grey-derived
    pixel [v]. *)
Definition tint (s : Z) (v : Vec3b) : Vec3b :=
  if decide (s = CONVERGED) then set_ch0 xff v
  else if decide (s = DIVERGED) then set_ch2 xff v
  else v.

(** The image one call of the rendering draws. *)
Definition rendering (dm : Depthmap) : Mat Vec3b :=
  let grey := cvtColor_GRAY2BGR (getReferenceImage dm) in
  mkMat (rows grey) (cols grey)
        (zip_with tint (data (getConvergenceMap dm)) (data grey)).

(** The rendering loop after the first [k] cells in raster order: those
    cells are tinted, the others still hold the grey-derived pixel. *)
Definition drawn (convergence : Mat Z) (init : Mat Vec3b) (k : Z)
    (s : Mat Vec3b) : Prop :=
  rows s = rows init ∧ cols s = cols init ∧
  length (data s) = length (data init) ∧
  ∀ i : nat,
    data s !! i =
    if decide (Z.of_nat i < k)
    then (st ← data convergence !! i; v ← data init !! i; Some (tint st v))
    else data init !! i.

(** The public operations, for sequences of calls. *)
Inductive call : Type :=
| CallDepthmap (ros : Ros)
| CallPointCloud (ros : Ros)
| CallPointCloudRGB (ros : Ros)
| CallDepthmapAndPointCloud (r1 r2 r3 : Ros)
| CallConvergenceMap (ros : Ros).

Definition run_call (c : call) (pub : Publisher) : option (Publisher * list Msg) :=
  match c with
  | CallDepthmap ros => publishDepthmap ros pub
  | CallPointCloud ros => publishPointCloud ros pub
  | CallPointCloudRGB ros => publishPointCloudRGB ros pub
  | CallDepthmapAndPointCloud r1 r2 r3 => publishDepthmapAndPointCloud r1 r2 r3 pub
  | CallConvergenceMap ros => publishConvergenceMap ros pub
  end.

(** What a call leaves alone, and how far it changes the clouds. *)
Definition call_frame (pub pub' : Publisher) : Prop :=
  depthmap_ pub' = depthmap_ pub ∧
  continues (pc_ pub) (pc_ pub') ∧
  continues (pc_rgb_ pub) (pc_rgb_ pub').

(** The depth estimator replaces the shared depth map between calls. *)
Definition with_depthmap (dm : Depthmap) (pub : Publisher) : Publisher :=
  mkPublisher dm (pc_ pub) (pc_rgb_ pub) (colored_ pub).

(** One step of a history of the publisher: a call that returns, or an
    update of the depth map by its owner. *)
Inductive step : Publisher → Publisher → Prop :=
| step_call c pub pub' out :
    run_call c pub = Some (pub', out) → step pub pub'
| step_update dm pub :
    step pub (with_depthmap dm pub).

Inductive steps : Publisher → Publisher → Prop :=
| steps_refl pub : steps pub pub
| steps_step pub1 pub2 pub3 :
    step pub1 pub2 → steps pub2 pub3 → steps pub1 pub3.

(** The cells the iteration of each projection at pixel [(y, x)] reads
    exist in their buffers: the depth and the state always, the intensity
    only when the state is CONVERGED; for the colored projection the mask
    only when the state is CONVERGED and the colour only when the mask is
    1 as well. *)
Definition publishPointCloud_reads (dm : Depthmap) (y x : Z) : Prop :=
  is_Some (Mat_at (getDepthmap dm) y x) ∧
  is_Some (Mat_at (getConvergenceMap dm) y x) ∧
  (converged dm (y, x) → is_Some (Mat_at (getReferenceImage dm) y x)).

Definition publishPointCloudRGB_reads (dm : Depthmap) (y x : Z) : Prop :=
  is_Some (Mat_at (getDepthmap dm) y x) ∧
  is_Some (Mat_at (getConvergenceMap dm) y x) ∧
  (converged dm (y, x) →
   is_Some (Mat_at (getReferenceMask dm) y x) ∧
   (mask_is_1 dm (y, x) → is_Some (Mat_at (getReferenceImageRGB dm) y x))).

#[global] Instance publishPointCloud_reads_dec dm y x :
  Decision (publishPointCloud_reads dm y x) :=
  ltac:(unfold publishPointCloud_reads; apply _).
#[global] Instance publishPointCloudRGB_reads_dec dm y x :
  Decision (publishPointCloudRGB_reads dm y x) :=
  ltac:(unfold publishPointCloudRGB_reads; apply _).

(** Every iteration of the pixel loop finds the cells it reads. *)
Definition publishPointCloud_defined (dm : Depthmap) : Prop :=
  ∀ y x, 0 ≤ y < rows (getDepthmap dm) → 0 ≤ x < cols (getDepthmap dm) →
         publishPointCloud_reads dm y x.

Definition publishPointCloudRGB_defined (dm : Depthmap) : Prop :=
  ∀ y x, 0 ≤ y < rows (getDepthmap dm) → 0 ≤ x < cols (getDepthmap dm) →
         publishPointCloudRGB_reads dm y x.

(** The position of a point, whatever its attribute. *)
Definition xyz (p : PointType) : float3 := make_float3 (p_x p) (p_y p) (p_z p).
Definition xyz_rgb (p : PointTypeRGB) : float3 :=
  make_float3 (q_x p) (q_y p) (q_z p).

(** The answers of the runtime a call consumes. *)
Definition call_ros (c : call) : list Ros :=
  match c with
  | CallDepthmap ros | CallPointCloud ros | CallPointCloudRGB ros
  | CallConvergenceMap ros => [ros]
  | CallDepthmapAndPointCloud r1 r2 r3 => [r1; r2; r3]
  end.

(** Calls one after the other, on the same depth map; the messages in
    the order they go out. *)
Fixpoint run_calls (cs : list call) (pub : Publisher)
  : option (Publisher * list Msg) :=
  match cs with
  | [] => Some (pub, [])
  | c :: cs' =>
      '(pub1, out1) ← run_call c pub;
      '(pub2, out2) ← run_calls cs' pub1;
      Some (pub2, out1 ++ out2)
  end.

(** Two operations one after the other, with what each published. *)
Definition in_sequence
    (f g : Publisher → option (Publisher * list Msg)) (pub : Publisher)
  : option (Publisher * list Msg * list Msg) :=
  '(pub1, out1) ← f pub;
  '(pub2, out2) ← g pub1;
  Some (pub2, out1, out2).

End Vocabulary.

(** ** Sample snapshots

    A 2 by 2 snapshot at depth 5 under the identity pose, with
    fx = fy = 1 and cx = cy = 0.  Pixels (0,0) and (1,1) are CONVERGED,
    pixel (1,0) is DIVERGED; the mask of pixel (1,1) is 255. *)
Module Sample.
Import Binary32.

Definition five : float := 0x40A00000.

Definition depth : Mat float := mkMat 2 2 [five; five; five; five].
Definition convergence : Mat Z := mkMat 2 2 [1; 0; 3; 1].
Definition grey : Mat uchar := mkMat 2 2 [x0a; x14; x1e; x28].
Definition color : Mat Vec3b :=
  mkMat 2 2 [mkVec3b x1e x14 x0a; mkVec3b x00 x00 x00;
             mkVec3b xff xff xff; mkVec3b x03 x02 x01].
Definition mask : Mat uchar := mkMat 2 2 [x01; x01; x01; xff].

Definition dm : Depthmap :=
  mkDepthmap depth convergence grey color mask identity one_f one_f 0 0 2 2.

(** The same snapshot without a mask. *)
Definition dm_no_mask : Depthmap :=
  mkDepthmap depth convergence grey color Mat_empty identity one_f one_f 0 0 2 2.

(** The same snapshot with other depths, intensities and colours at the
    pixels that are not CONVERGED. *)
Definition dm_other : Depthmap :=
  mkDepthmap (mkMat 2 2 [five; one_f; 0; five])
             convergence
             (mkMat 2 2 [x0a; xff; x00; x28])
             (mkMat 2 2 [mkVec3b x1e x14 x0a; mkVec3b x07 x07 x07;
                         mkVec3b x00 x00 x00; mkVec3b x03 x02 x01])
             mask identity one_f one_f 0 0 2 2.

(** A one-pixel snapshot whose pixel is DIVERGED. *)
Definition dm_diverged : Depthmap :=
  mkDepthmap (mkMat 1 1 [five]) (mkMat 1 1 [3]) (mkMat 1 1 [x0a])
             (mkMat 1 1 [mkVec3b x1e x14 x0a]) (mkMat 1 1 [x01])
             identity one_f one_f 0 0 1 1.

Definition black : Vec3b := mkVec3b x00 x00 x00.

(** Publishers as the constructor leaves them. *)
Definition fresh : Publisher := Publisher_new dm (λ _, black).
Definition fresh_no_mask : Publisher := Publisher_new dm_no_mask (λ _, black).
Definition fresh_other : Publisher := Publisher_new dm_other (λ _, black).
Definition fresh_diverged : Publisher := Publisher_new dm_diverged (λ _, black).

(** A runtime that is up, at time 1000. *)
Definition up : Ros := mkRos true 1000.

(** A one-pixel snapshot whose pixel is DIVERGED and which has neither
    reference images nor a mask. *)
Definition dm_bare : Depthmap :=
  mkDepthmap (mkMat 1 1 [five]) (mkMat 1 1 [3]) Mat_empty Mat_empty Mat_empty
             identity one_f one_f 0 0 1 1.

(** The sample snapshot with a convergence map of one row only. *)
Definition dm_short : Depthmap :=
  mkDepthmap depth (mkMat 1 2 [1; 0]) grey color mask
             identity one_f one_f 0 0 2 2.

(** The sample snapshot with its convergence map under a header of four
    rows and one column: [at(y, x)] falls on cell [y + x] of its buffer. *)
Definition dm_reshaped : Depthmap :=
  mkDepthmap depth (mkMat 4 1 [1; 0; 3; 1]) grey color mask
             identity one_f one_f 0 0 2 2.

Definition fresh_bare : Publisher := Publisher_new dm_bare (λ _, black).
Definition fresh_reshaped : Publisher := Publisher_new dm_reshaped (λ _, black).
Definition fresh_short : Publisher := Publisher_new dm_short (λ _, black).

(** A publisher that holds one point from an earlier call and now sees
    the snapshot without CONVERGED pixels. *)
Definition stale : Publisher :=
  mkPublisher dm_diverged
    (mkPointCloud (mkHeader "world" 900) [mkPointType 0 0 five five])
    (mkPointCloud (mkHeader "world" 900) [mkPointTypeRGB 0 0 five 0x0A141E])
    (mkMat 1 1 [black]).

(** A runtime that is down. *)
Definition down : Ros := mkRos false 1000.

End Sample.

(** * Properties *)

(** ** Grids *)
Section Grids.
Context {T : Type}.
Implicit Types (m : Mat T) (y x : Z).

Lemma Mat_index_lt m y x :
  Mat_wf m → Mat_inside m y x → (Mat_index (cols m) y x < length (data m))%nat.
Proof.
  intros (Hr & Hc & Hlen) [Hy Hx]. unfold Mat_index. rewrite Hlen.
  apply Z2Nat.inj_lt; nia.
Qed.

Lemma Mat_at_inside m y x :
  Mat_inside m y x → Mat_at m y x = data m !! Mat_index (cols m) y x.
Proof.
  intros [Hy Hx]. unfold Mat_at. rewrite decide_True; [done|]. nia.
Qed.

Lemma Mat_at_is_Some m y x :
  Mat_wf m → Mat_inside m y x → is_Some (Mat_at m y x).
Proof.
  intros Hwf Hin. rewrite Mat_at_inside by done.
  apply lookup_lt_is_Some. by apply Mat_index_lt.
Qed.

Lemma Mat_put_inside m y x v :
  Mat_inside m y x → (Mat_index (cols m) y x < length (data m))%nat →
  Mat_put m y x v
  = Some (mkMat (rows m) (cols m) (<[Mat_index (cols m) y x := v]> (data m))).
Proof.
  intros [Hy Hx] H2. unfold Mat_put. rewrite decide_True; [done|].
  split; [nia|done].
Qed.

(** Two buffers of one length under headers with the same number of
    columns have the same cells. *)
Lemma Mat_at_is_Some_same_buffer {U} m (m' : Mat U) y x :
  cols m = cols m' → length (data m) = length (data m') →
  is_Some (Mat_at m' y x) → is_Some (Mat_at m y x).
Proof.
  intros Hc Hl. unfold Mat_at. rewrite Hc. case_decide; [|by intros [? ?]].
  rewrite !lookup_lt_is_Some. by rewrite Hl.
Qed.

Lemma Mat_inside_same_size {U} m (m' : Mat U) y x :
  same_size m m' → Mat_inside m' y x → Mat_inside m y x.
Proof. intros [Hr Hc]. unfold Mat_inside. by rewrite Hr, Hc. Qed.

End Grids.

(** ** Raster order *)

Lemma raster_S (n : nat) (c : Z) :
  raster (Z.of_nat (S n)) c
  = raster (Z.of_nat n) c ++ (pair (Z.of_nat n) <$> seqZ 0 c).
Proof.
  unfold raster. rewrite seqZ_S, bind_app. f_equal. simpl.
  rewrite app_nil_r. induction (seqZ 0 c) as [|x l IH]; [done|].
  csimpl. by rewrite IH, Z.add_0_l.
Qed.

Lemma length_raster (r c : Z) :
  length (raster r c) = (Z.to_nat r * Z.to_nat c)%nat.
Proof.
  destruct (decide (r ≤ 0)) as [Hr|Hr].
  { unfold raster. rewrite (seqZ_nil 0 r) by done. csimpl. lia. }
  rewrite <- (Z2Nat.id r) at 1 by lia.
  induction (Z.to_nat r) as [|n IH]; [done|].
  rewrite raster_S, length_app, IH, length_fmap, length_seqZ. lia.
Qed.

Lemma lookup_raster (r c : Z) (i : nat) (y x : Z) :
  raster r c !! i = Some (y, x) →
  (0 ≤ y < r ∧ 0 ≤ x < c) ∧ i = Mat_index c y x.
Proof.
  destruct (decide (r ≤ 0)) as [Hr|Hr].
  { unfold raster. by rewrite (seqZ_nil 0 r) by done. }
  assert (Z.of_nat (Z.to_nat r) ≤ r) as Hle by lia.
  rewrite <- (Z2Nat.id r) at 1 by lia.
  induction (Z.to_nat r) as [|n IH]; [done|].
  rewrite raster_S. intros H. apply lookup_app_Some in H as [H|[Hlen H]].
  - apply IH; [lia|done].
  - rewrite length_raster in Hlen. rewrite length_raster in H.
    rewrite list_lookup_fmap in H.
    destruct (seqZ 0 c !! _) as [x'|] eqn:Hx; [|done].
    simpl in H. injection H as <- <-.
    apply lookup_seqZ in Hx as [-> Hx]. unfold Mat_index.
    rewrite !Nat2Z.id in *. split; [lia|]. 
    assert (0 ≤ c) by lia. nia.
Qed.

Lemma elem_of_raster (r c y x : Z) :
  (y, x) ∈ raster r c ↔ 0 ≤ y < r ∧ 0 ≤ x < c.
Proof.
  unfold raster. rewrite list_elem_of_bind. split.
  - intros (y' & Hx & Hy). apply elem_of_seqZ in Hy.
    apply list_elem_of_bind in Hx as (x' & Hx & Hx').
    apply elem_of_seqZ in Hx'. apply list_elem_of_singleton in Hx.
    injection Hx as -> ->. lia.
  - intros [Hy Hx]. exists y. split; [|apply elem_of_seqZ; lia].
    apply list_elem_of_bind. exists x.
    split; [by apply list_elem_of_singleton | apply elem_of_seqZ; lia].
Qed.

(** Reading a grid pixel by pixel in raster order reads its buffer from
    the first cell to the last. *)
Lemma raster_reads_buffer {T} (m : Mat T) :
  Mat_wf m →
  Forall2 (λ yx v, Mat_at m yx.1 yx.2 = Some v)
          (raster (rows m) (cols m)) (data m).
Proof.
  intros (Hr & Hc & Hlen). apply Forall2_same_length_lookup. split.
  - rewrite length_raster, Hlen. rewrite Z2Nat.inj_mul; lia.
  - intros i [y x] v Hi Hv. apply lookup_raster in Hi as [Hin ->].
    simpl. by rewrite Mat_at_inside.
Qed.

(** Counting through a pointwise relation. *)
Lemma Forall2_filter_length {A B} (R : A → B → Prop)
    (P : A → Prop) (Q : B → Prop)
    `{∀ a, Decision (P a)} `{∀ b, Decision (Q b)} (l : list A) (k : list B) :
  Forall2 R l k →
  (∀ a b, R a b → P a ↔ Q b) →
  length (filter P l) = length (filter Q k).
Proof.
  intros HF HPQ. induction HF as [|a b l k Hab _ IH]; [done|].
  rewrite !filter_cons. specialize (HPQ a b Hab).
  repeat case_decide; simpl; try tauto; by rewrite IH.
Qed.

Lemma Forall2_zip_r {A B C} (R1 : A → B → Prop) (R2 : A → C → Prop) l k1 k2 :
  Forall2 R1 l k1 → Forall2 R2 l k2 →
  Forall2 (λ a bc, R1 a bc.1 ∧ R2 a bc.2) l (zip k1 k2).
Proof.
  intros H1. revert k2. induction H1 as [|a b l k1 Hab _ IH]; intros k2 H2.
  - inversion H2. constructor.
  - inversion H2; subst. simpl. constructor; [done|]. by apply IH.
Qed.

(** ** Loops *)

Lemma extend_nil {P} (pc : PointCloud P) : extend pc [] = pc.
Proof. destruct pc. unfold extend. simpl. by rewrite app_nil_r. Qed.

Lemma extend_extend {P} (pc : PointCloud P) l1 l2 :
  extend (extend pc l1) l2 = extend pc (l1 ++ l2).
Proof. unfold extend. simpl. by rewrite app_assoc. Qed.

(** A loop whose iterations only append appends the concatenation. *)
Lemma for_loop_extend {P} (g : Z → list P) body (n : nat) (i : Z) pc :
  (∀ j pc, i ≤ j < i + Z.of_nat n → body j pc = Some (extend pc (g j))) →
  for_loop n i body pc = Some (extend pc (seqZ i (Z.of_nat n) ≫= g)).
Proof.
  revert i pc. induction n as [|n IH]; intros i pc Hbody.
  - simpl. by rewrite extend_nil.
  - simpl. rewrite Hbody by lia. simpl. rewrite IH.
    + rewrite extend_extend. rewrite (seqZ_cons i) by lia.
      rewrite bind_cons. replace (Z.succ i) with (i + 1) by lia.
      by replace (Z.pred (Z.of_nat (S n))) with (Z.of_nat n) by lia.
    + intros j pc' Hj. apply Hbody. lia.
Qed.

Lemma for_upto_extend {P} (g : Z → list P) body (hi : Z) pc :
  (∀ j pc, 0 ≤ j < hi → body j pc = Some (extend pc (g j))) →
  for_upto hi body pc = Some (extend pc (seqZ 0 hi ≫= g)).
Proof.
  intros Hbody. unfold for_upto. rewrite (for_loop_extend g).
  - destruct (decide (0 ≤ hi)).
    + by rewrite Z2Nat.id.
    + rewrite !seqZ_nil by lia. done.
  - intros j pc' Hj. apply Hbody. lia.
Qed.

Lemma raster_bind {B} (g : Z * Z → list B) (r c : Z) :
  raster r c ≫= g = seqZ 0 r ≫= (λ y, seqZ 0 c ≫= (λ x, g (y, x))).
Proof.
  unfold raster. induction (seqZ 0 r) as [|y l IH]; [done|].
  rewrite !bind_cons, bind_app, IH. f_equal.
  clear IH. induction (seqZ 0 c) as [|x l' IH']; [done|].
  by rewrite !bind_cons, bind_app, IH', bind_singleton.
Qed.

(** The two nested loops over a grid. *)
Lemma for_raster_extend {P} (g : Z * Z → list P) body (r c : Z) pc :
  (∀ y x pc, 0 ≤ y < r → 0 ≤ x < c → body y x pc = Some (extend pc (g (y, x)))) →
  for_upto r (λ y, for_upto c (λ x, body y x)) pc
  = Some (extend pc (raster r c ≫= g)).
Proof.
  intros Hbody.
  rewrite (for_upto_extend (λ y, seqZ 0 c ≫= (λ x, g (y, x)))).
  - by rewrite raster_bind.
  - intros y pc' Hy. apply for_upto_extend. intros x pc'' Hx. by apply Hbody.
Qed.

Lemma omap_filter_bind {A B} (f : A → option B) (P : A → Prop)
    `{∀ a, Decision (P a)} (l : list A) :
  l ≫= (λ a, omap f (filter P [a])) = omap f (filter P l).
Proof.
  induction l as [|a l IH]; [done|].
  rewrite bind_cons, IH, (filter_cons _ a l), (filter_cons _ a []), filter_nil.
  case_decide; simpl; [by destruct (f a)|done].
Qed.

Lemma omap_ext_Forall {A B} (f g : A → option B) (l : list A) :
  Forall (λ a, f a = g a) l → omap f l = omap g l.
Proof.
  induction 1 as [|a l Ha _ IH]; [done|].
  csimpl. by rewrite Ha, IH.
Qed.

Section Projection.
Context `{FA : FloatArith} `{CS : ConvergenceState}.
Implicit Types (dm : Depthmap) (pub : Publisher) (ros : Ros).

Lemma publishPointCloud_pixel_extend dm y x pc :
  publishPointCloud_pre dm → Mat_inside (getDepthmap dm) y x →
  publishPointCloud_pixel dm y x pc
  = Some (extend pc (omap (point_of dm) (filter (converged dm) [(y, x)]))).
Proof.
  intros (Hd & Hc & Hcs & Hi & His) Hin.
  destruct (Mat_at_is_Some (getDepthmap dm) y x) as [d Ed]; [done..|].
  destruct (Mat_at_is_Some (getConvergenceMap dm) y x) as [s Es];
    [done | by eapply Mat_inside_same_size|].
  destruct (Mat_at_is_Some (getReferenceImage dm) y x) as [i Ei];
    [done | by eapply Mat_inside_same_size|].
  unfold publishPointCloud_pixel. rewrite Ed, Es. simpl.
  rewrite (filter_cons _ (y, x) []), filter_nil.
  destruct (decide (CONVERGED = s)) as [<-|Hne].
  - rewrite decide_True by done. rewrite Ei. simpl.
    unfold point_of. simpl. by rewrite Ed, Ei.
  - rewrite decide_False by (unfold converged; simpl; congruence).
    simpl. by rewrite extend_nil.
Qed.

Lemma publishPointCloud_loop dm pc :
  publishPointCloud_pre dm →
  for_upto (rows (getDepthmap dm)) (λ y,
    for_upto (cols (getDepthmap dm)) (λ x, publishPointCloud_pixel dm y x)) pc
  = Some (extend pc (projection dm)).
Proof.
  intros Hpre.
  rewrite (for_raster_extend
             (λ yx, omap (point_of dm) (filter (converged dm) [yx]))).
  - by rewrite omap_filter_bind.
  - intros y x pc' Hy Hx. by apply publishPointCloud_pixel_extend.
Qed.

Lemma publishPointCloudRGB_pixel_extend dm y x pc :
  publishPointCloudRGB_pre dm → Mat_inside (getDepthmap dm) y x →
  publishPointCloudRGB_pixel dm y x pc
  = Some (extend pc (omap (point_rgb_of dm)
                       (filter (λ yx, converged dm yx ∧ mask_is_1 dm yx) [(y, x)]))).
Proof.
  intros (Hd & Hc & Hcs & Hi & His & Hm & Hms) Hin.
  destruct (Mat_at_is_Some (getDepthmap dm) y x) as [d Ed]; [done..|].
  destruct (Mat_at_is_Some (getConvergenceMap dm) y x) as [s Es];
    [done | by eapply Mat_inside_same_size|].
  destruct (Mat_at_is_Some (getReferenceImageRGB dm) y x) as [v Ev];
    [done | by eapply Mat_inside_same_size|].
  destruct (Mat_at_is_Some (getReferenceMask dm) y x) as [m Em];
    [done | by eapply Mat_inside_same_size|].
  unfold publishPointCloudRGB_pixel. rewrite Ed, Es. simpl.
  rewrite (filter_cons _ (y, x) []), filter_nil.
  assert (mask_is_1 dm (y, x) ↔ uchar_to_Z m = 1) as Hmask.
  { unfold mask_is_1. simpl. rewrite Em. simpl.
    split; [by intros [= ->] | by intros ->]. }
  destruct (decide (CONVERGED = s)) as [<-|Hne].
  - rewrite Em. simpl. destruct (decide (uchar_to_Z m = 1)) as [E1|E1].
    + rewrite decide_True by (split; [done | by apply Hmask]).
      rewrite Ev. simpl. unfold point_rgb_of. simpl. by rewrite Ed, Ev.
    + rewrite decide_False by (intros [_ ?]; by apply E1, Hmask).
      simpl. by rewrite extend_nil.
  - rewrite decide_False
      by (intros [? _]; unfold converged in *; simpl in *; congruence).
    simpl. by rewrite extend_nil.
Qed.

Lemma publishPointCloudRGB_loop dm pc :
  publishPointCloudRGB_pre dm →
  for_upto (rows (getDepthmap dm)) (λ y,
    for_upto (cols (getDepthmap dm)) (λ x, publishPointCloudRGB_pixel dm y x)) pc
  = Some (extend pc (projection_rgb dm)).
Proof.
  intros Hpre.
  rewrite (for_raster_extend
             (λ yx, omap (point_rgb_of dm)
                      (filter (λ yx, converged dm yx ∧ mask_is_1 dm yx) [yx]))).
  - by rewrite omap_filter_bind.
  - intros y x pc' Hy Hx. by apply publishPointCloudRGB_pixel_extend.
Qed.

End Projection.

(** A loop that keeps an invariant indexed by its counter. *)
Lemma for_loop_inv {St} (I : Z → St → Prop) body (n : nat) (i : Z) (s : St) :
  I i s →
  (∀ j s, i ≤ j < i + Z.of_nat n → I j s →
          ∃ s', body j s = Some s' ∧ I (j + 1) s') →
  ∃ s', for_loop n i body s = Some s' ∧ I (i + Z.of_nat n) s'.
Proof.
  revert i s. induction n as [|n IH]; intros i s Hi Hbody.
  - exists s. split; [done|]. by rewrite Z.add_0_r.
  - destruct (Hbody i s) as (s1 & E1 & H1); [lia|done|].
    destruct (IH (i + 1) s1) as (s2 & E2 & H2); [done| |].
    + intros j s' Hj. apply Hbody. lia.
    + exists s2. simpl. rewrite E1. simpl. split; [done|].
      by replace (i + Z.of_nat (S n)) with (i + 1 + Z.of_nat n) by lia.
Qed.

Lemma for_upto_inv {St} (I : Z → St → Prop) body (hi : Z) (s : St) :
  0 ≤ hi → I 0 s →
  (∀ j s, 0 ≤ j < hi → I j s → ∃ s', body j s = Some s' ∧ I (j + 1) s') →
  ∃ s', for_upto hi body s = Some s' ∧ I hi s'.
Proof.
  intros Hhi H0 Hbody.
  destruct (for_loop_inv I body (Z.to_nat hi) 0 s) as (s' & E & H); [done| |].
  - intros j s' Hj. apply Hbody. lia.
  - exists s'. split; [done|]. by rewrite Z.add_0_l, Z2Nat.id in H.
Qed.

Section Rendering.
Context `{FA : FloatArith} `{CS : ConvergenceState}.

Lemma publishConvergenceMap_pixel_drawn convergence init r c s :
  Mat_wf init → Mat_wf convergence → same_size convergence init →
  0 ≤ r < rows init → 0 ≤ c < cols init →
  drawn convergence init (r * cols init + c) s →
  ∃ s', publishConvergenceMap_pixel convergence r c s = Some s' ∧
        drawn convergence init (r * cols init + c + 1) s'.
Proof.
  intros Hwi Hwc Hsz Hr Hc (Hrows & Hcols & Hlen & Hdata).
  destruct s as [sr sc sd]. simpl in Hrows, Hcols, Hlen, Hdata. subst sr sc.
  set (s := mkMat (rows init) (cols init) sd).
  assert (Mat_inside init r c) as Hin by done.
  assert (Mat_inside convergence r c) as Hinc
    by (by eapply Mat_inside_same_size).
  assert (Mat_inside s r c) as Hins by done.
  pose proof (Mat_index_lt init r c Hwi Hin) as Hlt.
  destruct (Mat_at_is_Some convergence r c) as [st Est]; [done..|].
  destruct (Mat_at_is_Some init r c) as [v Ev]; [done..|].
  rewrite Mat_at_inside in Est by done. rewrite Mat_at_inside in Ev by done.
  destruct Hsz as [_ Hcc]. rewrite Hcc in Est.
  set (idx := Mat_index (cols init) r c) in *.
  assert (Z.of_nat idx = r * cols init + c) as Hidx
    by (unfold idx, Mat_index; nia).
  assert (Mat_at s r c = Some v) as Esv.
  { rewrite Mat_at_inside by done. simpl. fold idx.
    rewrite Hdata. by rewrite decide_False by lia. }
  assert (∀ v', ∃ s', Mat_put s r c v' = Some s' ∧
            rows s' = rows init ∧ cols s' = cols init ∧
            data s' = <[idx := v']> sd) as Hput.
  { intros v'. rewrite Mat_put_inside; [by eexists | done |].
    simpl. fold idx. by rewrite Hlen. }
  assert (∀ v', v' = tint st v → ∀ s', rows s' = rows init → cols s' = cols init →
            data s' = <[idx := v']> sd →
            drawn convergence init (r * cols init + c + 1) s') as Hnew.
  { intros v' -> s' Hr' Hc' Hd'. split_and!; [done..| |].
    - by rewrite Hd', length_insert.
    - intros i. rewrite Hd'. destruct (decide (i = idx)) as [->|Hne].
      + rewrite list_lookup_insert_eq by (by rewrite Hlen).
        rewrite decide_True by lia. by rewrite Est, Ev.
      + rewrite list_lookup_insert_ne by done. rewrite Hdata.
        destruct (decide (Z.of_nat i < r * cols init + c)).
        * by rewrite decide_True by lia.
        * by rewrite decide_False by lia. }
  unfold publishConvergenceMap_pixel.
  rewrite (Mat_at_inside convergence) by done.
  rewrite Hcc. fold idx. rewrite Est. simpl.
  destruct (decide (st = CONVERGED)) as [Hs|Hs].
  - rewrite Esv. simpl. destruct (Hput (set_ch0 xff v)) as (s' & -> & ? & ? & ?).
    exists s'. split; [done|]. eapply Hnew; [|done..].
    unfold tint. by rewrite decide_True.
  - destruct (decide (st = DIVERGED)) as [Hs'|Hs'].
    + rewrite Esv. simpl. destruct (Hput (set_ch2 xff v)) as (s' & -> & ? & ? & ?).
      exists s'. split; [done|]. eapply Hnew; [|done..].
      unfold tint. rewrite decide_False by done. by rewrite decide_True.
    + exists s. split; [done|]. eapply Hnew; [|done..|].
      * unfold tint. rewrite decide_False by done. by rewrite decide_False.
      * symmetry. apply list_insert_id. rewrite Hdata.
        rewrite decide_False by lia. done.
Qed.

Lemma publishConvergenceMap_loop convergence init :
  Mat_wf init → Mat_wf convergence → same_size convergence init →
  for_upto (rows init) (λ r,
    for_upto (cols init) (λ c, publishConvergenceMap_pixel convergence r c)) init
  = Some (mkMat (rows init) (cols init)
            (zip_with tint (data convergence) (data init))).
Proof.
  intros Hwi Hwc Hsz.
  destruct (for_upto_inv (λ r, drawn convergence init (r * cols init))
              (λ r, for_upto (cols init)
                      (λ c, publishConvergenceMap_pixel convergence r c))
              (rows init) init) as (s & -> & Hs).
  - apply Hwi.
  - split_and!; [done..|]. intros i. by rewrite decide_False by lia.
  - intros r s Hr Hd.
    destruct (for_upto_inv (λ c, drawn convergence init (r * cols init + c))
                (λ c, publishConvergenceMap_pixel convergence r c)
                (cols init) s) as (s' & E & Hs').
    + apply Hwi.
    + by rewrite Z.add_0_r.
    + intros c s' Hc Hd'.
      replace (r * cols init + (c + 1)) with (r * cols init + c + 1) by lia.
      by apply publishConvergenceMap_pixel_drawn.
    + exists s'. split; [done|].
      by replace ((r + 1) * cols init) with (r * cols init + cols init) by lia.
  - f_equal. destruct Hs as (Hr & Hc & Hlen & Hdata). destruct s as [sr sc sd].
    simpl in *. subst sr sc. f_equal. apply list_eq. intros i.
    rewrite Hdata, lookup_zip_with.
    destruct Hwi as (? & ? & Hli).
    destruct (decide (Z.of_nat i < rows init * cols init)); [done|].
    rewrite (lookup_ge_None_2 (data init)) by lia.
    by destruct (data convergence !! i).
Qed.

End Rendering.

Section Counting.
Context `{FA : FloatArith} `{CS : ConvergenceState}.
Implicit Types (dm : Depthmap) (pub : Publisher) (ros : Ros).

Lemma length_survivors dm :
  publishPointCloud_pre dm →
  length (survivors dm) = count_CONVERGED (getConvergenceMap dm).
Proof.
  intros (Hd & Hc & [Hr Hcc] & _). unfold survivors, count_CONVERGED.
  rewrite <- Hr, <- Hcc.
  apply (Forall2_filter_length _ _ _ _ _ (raster_reads_buffer _ Hc)).
  intros [y x] s Hs. unfold converged. rewrite Hs.
  split; [by intros [= ->] | by intros ->].
Qed.

Lemma length_survivors_rgb dm :
  publishPointCloudRGB_pre dm →
  length (survivors_rgb dm)
  = count_CONVERGED_mask_1 (getConvergenceMap dm) (getReferenceMask dm).
Proof.
  intros (Hd & Hc & [Hr Hcc] & _ & _ & Hm & [Hmr Hmc]).
  unfold survivors_rgb, count_CONVERGED_mask_1.
  pose proof (raster_reads_buffer _ Hc) as H1.
  pose proof (raster_reads_buffer _ Hm) as H2.
  rewrite Hr, Hcc in H1. rewrite Hmr, Hmc in H2.
  apply (Forall2_filter_length _ _ _ _ _ (Forall2_zip_r _ _ _ _ _ H1 H2)).
  intros [y x] [s m] [Hs Hm']. unfold converged, mask_is_1. simpl in *.
  rewrite Hs, Hm'. simpl.
  split; [by intros [[= ->] [= ?]] | intros [-> E]; by rewrite E].
Qed.

Lemma survivors_points dm :
  publishPointCloud_pre dm →
  Forall2 (λ yx p, converged dm yx ∧ point_of dm yx = Some p)
          (survivors dm) (projection dm).
Proof.
  intros (Hd & Hc & Hcs & Hi & His).
  assert (Forall (λ yx, converged dm yx ∧ is_Some (point_of dm yx)) (survivors dm)) as HF.
  { apply Forall_forall. intros [y x] Hyx. unfold survivors in Hyx.
    apply list_elem_of_filter in Hyx as [Hcv Hyx]. split; [done|].
    apply elem_of_raster in Hyx.
    destruct (Mat_at_is_Some (getDepthmap dm) y x) as [d Ed]; [done..|].
    destruct (Mat_at_is_Some (getReferenceImage dm) y x) as [i Ei];
      [done | by eapply Mat_inside_same_size|].
    unfold point_of. simpl. rewrite Ed, Ei. by eexists. }
  unfold projection. induction HF as [|yx l [Hcv [p Hp]] _ IH]; [constructor|].
  csimpl. rewrite Hp. by constructor.
Qed.

Lemma survivors_rgb_points dm :
  publishPointCloudRGB_pre dm →
  Forall2 (λ yx p, (converged dm yx ∧ mask_is_1 dm yx) ∧ point_rgb_of dm yx = Some p)
          (survivors_rgb dm) (projection_rgb dm).
Proof.
  intros (Hd & Hc & Hcs & Hi & His & _).
  assert (Forall (λ yx, (converged dm yx ∧ mask_is_1 dm yx)
                        ∧ is_Some (point_rgb_of dm yx)) (survivors_rgb dm)) as HF.
  { apply Forall_forall. intros [y x] Hyx. unfold survivors_rgb in Hyx.
    apply list_elem_of_filter in Hyx as [Hcv Hyx]. split; [done|].
    apply elem_of_raster in Hyx.
    destruct (Mat_at_is_Some (getDepthmap dm) y x) as [d Ed]; [done..|].
    destruct (Mat_at_is_Some (getReferenceImageRGB dm) y x) as [i Ei];
      [done | by eapply Mat_inside_same_size|].
    unfold point_rgb_of. simpl. rewrite Ed, Ei. by eexists. }
  unfold projection_rgb. induction HF as [|yx l [Hcv [p Hp]] _ IH]; [constructor|].
  csimpl. rewrite Hp. by constructor.
Qed.

(** What the two projections return. *)
Lemma publishPointCloud_returns ros pub :
  publishPointCloud_pre (depthmap_ pub) →
  ∃ h out,
    publishPointCloud ros pub
    = Some (with_pc (mkPointCloud h (points (pc_ pub) ++ projection (depthmap_ pub))) pub,
            out) ∧
    (points (pc_ pub) ++ projection (depthmap_ pub) = [] → out = []) ∧
    (nh_ok ros = false → out = []) ∧
    (nh_ok ros = true → points (pc_ pub) ++ projection (depthmap_ pub) ≠ [] →
     h = mkHeader "world" (time_now ros) ∧
     out = [Cloud "remode/pointcloud"
              (mkPointCloud h (points (pc_ pub) ++ projection (depthmap_ pub)))]).
Proof.
  intros Hpre. unfold publishPointCloud.
  rewrite publishPointCloud_loop by done. simpl.
  unfold empty, extend. simpl.
  destruct (points (pc_ pub) ++ projection (depthmap_ pub)) as [|p l] eqn:E;
    simpl.
  - by eexists _, _.
  - destruct (nh_ok ros); simpl; eexists _, _; (split; [done|]); by split_and!.
Qed.

Lemma publishPointCloudRGB_returns ros pub :
  publishPointCloudRGB_pre (depthmap_ pub) →
  ∃ h out,
    publishPointCloudRGB ros pub
    = Some (with_pc_rgb
              (mkPointCloud h (points (pc_rgb_ pub) ++ projection_rgb (depthmap_ pub)))
              pub, out) ∧
    (points (pc_rgb_ pub) ++ projection_rgb (depthmap_ pub) = [] → out = []) ∧
    (nh_ok ros = false → out = []) ∧
    (nh_ok ros = true →
     points (pc_rgb_ pub) ++ projection_rgb (depthmap_ pub) ≠ [] →
     h = mkHeader "world" (time_now ros) ∧
     out = [CloudRGB "remode/rgb_pointcloud"
              (mkPointCloud h (points (pc_rgb_ pub) ++ projection_rgb (depthmap_ pub)))]).
Proof.
  intros Hpre. unfold publishPointCloudRGB.
  rewrite publishPointCloudRGB_loop by done. simpl.
  unfold empty, extend. simpl.
  destruct (points (pc_rgb_ pub) ++ projection_rgb (depthmap_ pub)) as [|p l] eqn:E;
    simpl.
  - by eexists _, _.
  - destruct (nh_ok ros); simpl; eexists _, _; (split; [done|]); by split_and!.
Qed.

Lemma publishConvergenceMap_returns ros pub :
  publishConvergenceMap_pre (depthmap_ pub) →
  publishConvergenceMap ros pub
  = Some (with_colored (rendering (depthmap_ pub)) pub,
          if nh_ok ros
          then [ColorImage "remode/convergence"
                  (mkHeader "convergence_map" (time_now ros)) "bgr8"
                  (rendering (depthmap_ pub))]
          else []).
Proof.
  intros (Hi & Hc & Hs). unfold publishConvergenceMap.
  rewrite publishConvergenceMap_loop.
  - simpl. unfold rendering. by destruct (nh_ok ros).
  - destruct Hi as (? & ? & Hl). split_and!; [done..|].
    simpl. by rewrite length_fmap.
  - done.
  - done.
Qed.

End Counting.

(** ** Colour packing *)

Lemma uchar_to_Z_range (b : uchar) : 0 ≤ uchar_to_Z b < 256.
Proof.
  unfold uchar_to_Z. pose proof (Byte.to_N_bounded b). lia.
Qed.

Lemma uchar_bits_high (b : uchar) (n : Z) :
  8 ≤ n → Z.testbit (uchar_to_Z b) n = false.
Proof.
  intros Hn. pose proof (uchar_to_Z_range b) as [H0 H1].
  destruct (decide (uchar_to_Z b = 0)) as [->|Hne].
  - apply Z.testbit_0_l.
  - apply Z.bits_above_log2; [done|].
    apply Z.lt_le_trans with 8; [|done].
    apply Z.log2_lt_pow2; lia.
Qed.

Lemma testbit_255 (n : Z) : 0 ≤ n → Z.testbit 0xFF n = bool_decide (n < 8).
Proof.
  intros Hn. change 0xFF with (Z.ones 8).
  rewrite Z.testbit_ones_nonneg by lia.
  case_bool_decide; lia.
Qed.

Section Packing.
Context `{FA : FloatArith} `{CS : ConvergenceState}.

Lemma pack_rgb_bits (v : Vec3b) (n : Z) :
  0 ≤ n →
  Z.testbit (pack_rgb v) n
  = if decide (n < 8) then Z.testbit (uchar_to_Z (ch0 v)) n
    else if decide (n < 16) then Z.testbit (uchar_to_Z (ch1 v)) (n - 8)
    else Z.testbit (uchar_to_Z (ch2 v)) (n - 16).
Proof.
  intros Hn. unfold pack_rgb.
  rewrite !Z.lor_spec, !Z.shiftl_spec by done.
  repeat case_decide.
  - rewrite (Z.testbit_neg_r _ (n - 16)), (Z.testbit_neg_r _ (n - 8)) by lia.
    done.
  - rewrite (Z.testbit_neg_r _ (n - 16)) by lia.
    rewrite (uchar_bits_high (ch0 v)) by lia. simpl. apply orb_false_r.
  - rewrite (uchar_bits_high (ch0 v)), (uchar_bits_high (ch1 v)) by lia.
    by rewrite !orb_false_r.
Qed.

Lemma pack_rgb_low (v : Vec3b) :
  Z.land (pack_rgb v) 0xFF = uchar_to_Z (ch0 v).
Proof.
  apply Z.bits_inj'. intros n Hn.
  rewrite Z.land_spec, testbit_255, pack_rgb_bits by done.
  case_bool_decide.
  - rewrite decide_True by done. apply andb_true_r.
  - rewrite uchar_bits_high by lia. apply andb_false_r.
Qed.

Lemma pack_rgb_middle (v : Vec3b) :
  Z.land (Z.shiftr (pack_rgb v) 8) 0xFF = uchar_to_Z (ch1 v).
Proof.
  apply Z.bits_inj'. intros n Hn.
  rewrite Z.land_spec, testbit_255, Z.shiftr_spec, pack_rgb_bits by lia.
  rewrite decide_False by lia. replace (n + 8 - 8) with n by lia.
  case_bool_decide.
  - rewrite decide_True by lia. apply andb_true_r.
  - rewrite uchar_bits_high by lia. apply andb_false_r.
Qed.

Lemma pack_rgb_high (v : Vec3b) :
  Z.land (Z.shiftr (pack_rgb v) 16) 0xFF = uchar_to_Z (ch2 v).
Proof.
  apply Z.bits_inj'. intros n Hn.
  rewrite Z.land_spec, testbit_255, Z.shiftr_spec, pack_rgb_bits by lia.
  rewrite !decide_False by lia. replace (n + 16 - 16) with n by lia.
  case_bool_decide.
  - apply andb_true_r.
  - rewrite uchar_bits_high by lia. apply andb_false_r.
Qed.

Lemma pack_rgb_top (v : Vec3b) : Z.shiftr (pack_rgb v) 24 = 0.
Proof.
  apply Z.bits_inj'. intros n Hn.
  rewrite Z.shiftr_spec, pack_rgb_bits, Z.bits_0 by lia.
  rewrite !decide_False by lia. apply uchar_bits_high. lia.
Qed.

(** C4.  The colour of a point is the pixel's three channels, read in
    (B, G, R) order, packed as R in bits 16..23, G in bits 8..15 and B in
    bits 0..7 of a 32-bit integer whose top byte is zero, and those 32 bits
    are the float attribute as they are: unpacking the attribute gives back
    (R, G, B), for instance (10, 20, 30) for the source pixel
    (B=30, G=20, R=10); and the point appended for a pixel that passes the
    gate carries the packed colour of that pixel. *)
Theorem pack_rgb_round_trip (v : Vec3b) :
  let R := uchar_to_Z (ch2 v) in
  let G := uchar_to_Z (ch1 v) in
  let B := uchar_to_Z (ch0 v) in
  Z.land (Z.shiftr (pack_rgb v) 16) 0xFF = R ∧
  Z.land (Z.shiftr (pack_rgb v) 8) 0xFF = G ∧
  Z.land (pack_rgb v) 0xFF = B ∧
  Z.shiftr (pack_rgb v) 24 = 0 ∧
  unpack_rgb (reinterpret_as_float (pack_rgb v)) = (R, G, B) ∧
  unpack_rgb (reinterpret_as_float (pack_rgb (mkVec3b x1e x14 x0a)))
  = (10, 20, 30) ∧
  ∀ dm y x d m pc,
    Mat_at (getDepthmap dm) y x = Some d →
    Mat_at (getConvergenceMap dm) y x = Some CONVERGED →
    Mat_at (getReferenceMask dm) y x = Some m → uchar_to_Z m = 1 →
    Mat_at (getReferenceImageRGB dm) y x = Some v →
    ∃ p, publishPointCloudRGB_pixel dm y x pc = Some (push_back pc p) ∧
         q_rgb p = reinterpret_as_float (pack_rgb v) ∧
         unpack_rgb (q_rgb p) = (R, G, B).
Proof.
  intros R G B.
  assert (unpack_rgb (reinterpret_as_float (pack_rgb v)) = (R, G, B)) as Hun.
  { unfold unpack_rgb, reinterpret_as_float.
    by rewrite pack_rgb_high, pack_rgb_middle, pack_rgb_low. }
  split_and!.
  - apply pack_rgb_high.
  - apply pack_rgb_middle.
  - apply pack_rgb_low.
  - apply pack_rgb_top.
  - done.
  - done.
  - intros dm y x d m pc Ed Es Em E1 Ev. unfold publishPointCloudRGB_pixel.
    rewrite Ed, Es. simpl. rewrite decide_True by done. rewrite Em. simpl.
    rewrite decide_True by done. rewrite Ev. simpl. by eexists.
Qed.

End Packing.

(** A loop fails as soon as one of its iterations fails whatever the state. *)
Lemma for_loop_fails {St} (body : Z → St → option St) (n : nat) (i j : Z) (s : St) :
  i ≤ j < i + Z.of_nat n → (∀ s, body j s = None) →
  for_loop n i body s = None.
Proof.
  revert i s. induction n as [|n IH]; intros i s Hj Hb; [lia|].
  simpl. destruct (decide (i = j)) as [->|Hne].
  - by rewrite Hb.
  - destruct (body i s) as [s'|]; [|done]. simpl. apply IH; [lia|done].
Qed.

Lemma for_upto_fails {St} (body : Z → St → option St) (hi j : Z) (s : St) :
  0 ≤ j < hi → (∀ s, body j s = None) → for_upto hi body s = None.
Proof. intros Hj Hb. unfold for_upto. apply (for_loop_fails _ _ _ j); [lia|done]. Qed.

Section Claims.
Context `{FA : FloatArith} `{CS : ConvergenceState}.
Implicit Types (dm : Depthmap) (pub : Publisher) (ros : Ros).

(** C2, as the code has it.  On a snapshot whose grids have the size of
    the depth map, [publishPointCloud] returns, and the points it appends
    to the cloud it found are as many as the cells of the convergence map
    that hold CONVERGED; they are, one for one and in this order, the
    points of the CONVERGED pixels taken in raster-scan order.  The cloud
    it stores, and publishes when the node is up, is the one it found
    followed by these points. *)
Theorem publishPointCloud_converged_pixels ros pub :
  publishPointCloud_pre (depthmap_ pub) →
  ∃ pub' out new,
    publishPointCloud ros pub = Some (pub', out) ∧
    points (pc_ pub') = points (pc_ pub) ++ new ∧
    length new = count_CONVERGED (getConvergenceMap (depthmap_ pub)) ∧
    survivors (depthmap_ pub)
    = filter (converged (depthmap_ pub))
        (raster (rows (getDepthmap (depthmap_ pub)))
                (cols (getDepthmap (depthmap_ pub)))) ∧
    Forall2 (λ yx p, converged (depthmap_ pub) yx ∧
                     point_of (depthmap_ pub) yx = Some p)
            (survivors (depthmap_ pub)) new ∧
    (nh_ok ros = true → points (pc_ pub') ≠ [] →
     out = [Cloud "remode/pointcloud" (pc_ pub')]).
Proof.
  intros Hpre.
  destruct (publishPointCloud_returns ros pub Hpre)
    as (h & out & -> & _ & _ & Hout).
  eexists _, out, (projection (depthmap_ pub)).
  split_and!; [done..| | | |].
  - rewrite <- length_survivors by done. symmetry.
    eapply Forall2_length, survivors_points. done.
  - done.
  - by apply survivors_points.
  - simpl. intros Hok Hne. by destruct (Hout Hok Hne) as [_ ->].
Qed.

(** C3, as the code has it.  On a snapshot whose grids, the mask among
    them, have the size of the depth map, [publishPointCloudRGB] returns and
    appends as many points as there are pixels that are CONVERGED with mask
    value 1, one per such pixel in raster order.  There is no case for an
    absent mask: the mask is read at every CONVERGED pixel, so with a mask
    whose buffer is empty and a CONVERGED pixel the call has no result. *)
Theorem publishPointCloudRGB_converged_mask_1 ros pub :
  (publishPointCloudRGB_pre (depthmap_ pub) →
   ∃ pub' out new,
     publishPointCloudRGB ros pub = Some (pub', out) ∧
     points (pc_rgb_ pub') = points (pc_rgb_ pub) ++ new ∧
     length new = count_CONVERGED_mask_1 (getConvergenceMap (depthmap_ pub))
                                         (getReferenceMask (depthmap_ pub)) ∧
     Forall2 (λ yx p, (converged (depthmap_ pub) yx ∧ mask_is_1 (depthmap_ pub) yx) ∧
                      point_rgb_of (depthmap_ pub) yx = Some p)
             (survivors_rgb (depthmap_ pub)) new) ∧
  (∀ y x,
     Mat_inside (getDepthmap (depthmap_ pub)) y x →
     converged (depthmap_ pub) (y, x) →
     data (getReferenceMask (depthmap_ pub)) = [] →
     publishPointCloudRGB ros pub = None).
Proof.
  split.
  - intros Hpre.
    destruct (publishPointCloudRGB_returns ros pub Hpre) as (h & out & -> & _).
    eexists _, out, (projection_rgb (depthmap_ pub)). split_and!; [done..| |].
    + rewrite <- length_survivors_rgb by done. symmetry.
      eapply Forall2_length, survivors_rgb_points. done.
    + by apply survivors_rgb_points.
  - intros y x [Hy Hx] Hcv Hempty.
    assert (Mat_at (getReferenceMask (depthmap_ pub)) y x = None) as Hm.
    { unfold Mat_at. rewrite Hempty. by case_decide. }
    unfold publishPointCloudRGB.
    rewrite (for_upto_fails _ _ y); [done..|].
    intros pc. apply (for_upto_fails _ _ x); [done|].
    intros pc'. unfold publishPointCloudRGB_pixel.
    destruct (Mat_at (getDepthmap _) y x); [|done]. simpl.
    unfold converged in Hcv. simpl in Hcv. rewrite Hcv. simpl.
    rewrite decide_True by done. by rewrite Hm.
Qed.

(** C5.  On a snapshot whose convergence map has the size of the grey
    reference image, [publishConvergenceMap] returns; the image it leaves
    in [colored_] (and publishes when the node is up) has the size of the
    reference image, and at every pixel channel 0 is 255 if the state is
    CONVERGED, channel 2 is 255 if it is DIVERGED, and all three channels
    are the grey value if it is neither. *)
Theorem publishConvergenceMap_pixels ros pub :
  publishConvergenceMap_pre (depthmap_ pub) →
  ∃ pub' out,
    publishConvergenceMap ros pub = Some (pub', out) ∧
    (nh_ok ros = true →
     out = [ColorImage "remode/convergence"
              (mkHeader "convergence_map" (time_now ros)) "bgr8" (colored_ pub')]) ∧
    rows (colored_ pub') = rows (getReferenceImage (depthmap_ pub)) ∧
    cols (colored_ pub') = cols (getReferenceImage (depthmap_ pub)) ∧
    ∀ r c,
      Mat_inside (getReferenceImage (depthmap_ pub)) r c →
      ∃ s g px,
        Mat_at (getConvergenceMap (depthmap_ pub)) r c = Some s ∧
        Mat_at (getReferenceImage (depthmap_ pub)) r c = Some g ∧
        Mat_at (colored_ pub') r c = Some px ∧
        (s = CONVERGED → uchar_to_Z (ch0 px) = 255) ∧
        (s = DIVERGED → uchar_to_Z (ch2 px) = 255) ∧
        (s ≠ CONVERGED → s ≠ DIVERGED → px = mkVec3b g g g).
Proof.
  intros Hpre. rewrite publishConvergenceMap_returns by done.
  eexists _, _. split; [done|]. simpl.
  split; [by intros ->|]. split; [done|]. split; [done|].
  intros r c Hin. destruct Hpre as (Hi & Hc & Hs).
  destruct (Mat_at_is_Some (getReferenceImage (depthmap_ pub)) r c) as [g Eg];
    [done..|].
  destruct (Mat_at_is_Some (getConvergenceMap (depthmap_ pub)) r c) as [s Es];
    [done | by eapply Mat_inside_same_size|].
  exists s, g, (tint s (mkVec3b g g g)). split_and!; [done..| | | |].
  - rewrite Mat_at_inside by done. simpl.
    rewrite Mat_at_inside in Eg by done.
    rewrite Mat_at_inside in Es by (by eapply Mat_inside_same_size).
    destruct Hs as [_ Hcc]. rewrite Hcc in Es.
    by rewrite lookup_zip_with, Es, list_lookup_fmap, Eg.
  - intros ->. unfold tint. by rewrite decide_True.
  - intros ->. unfold tint. rewrite decide_False
      by (intros E; by apply CONVERGED_ne_DIVERGED).
    by rewrite decide_True.
  - intros H1 H2. unfold tint. by rewrite !decide_False.
Qed.

(** C9.  A pixel whose mask value is not exactly 1 (255, say) adds no
    point, CONVERGED or not: its iteration leaves the cloud as it is, and
    it is not among the pixels whose points the call appends. *)
Theorem publishPointCloudRGB_mask_not_1 ros pub y x m :
  publishPointCloudRGB_pre (depthmap_ pub) →
  Mat_at (getReferenceMask (depthmap_ pub)) y x = Some m →
  uchar_to_Z m ≠ 1 →
  (∀ pc, publishPointCloudRGB_pixel (depthmap_ pub) y x pc = Some pc) ∧
  ((y, x) ∉ survivors_rgb (depthmap_ pub)) ∧
  ∃ pub' out new,
    publishPointCloudRGB ros pub = Some (pub', out) ∧
    points (pc_rgb_ pub') = points (pc_rgb_ pub) ++ new ∧
    Forall2 (λ yx p, yx ≠ (y, x) ∧ point_rgb_of (depthmap_ pub) yx = Some p)
            (survivors_rgb (depthmap_ pub)) new.
Proof.
  intros Hpre Em Hm.
  assert ((y, x) ∉ survivors_rgb (depthmap_ pub)) as Hnot.
  { unfold survivors_rgb. rewrite list_elem_of_filter.
    intros [[_ H1] _]. unfold mask_is_1 in H1. simpl in H1.
    rewrite Em in H1. simpl in H1. congruence. }
  split_and!; [|done|].
  - intros pc.
    destruct Hpre as ((_ & _ & Ld) & (_ & _ & Lc) & [Rc Cc] & _ & _
                      & (_ & _ & Lm) & [Rm Cm]).
    destruct (Mat_at_is_Some_same_buffer
                (getDepthmap (depthmap_ pub)) (getReferenceMask (depthmap_ pub))
                y x) as [d Ed]; [done | congruence | by eexists |].
    destruct (Mat_at_is_Some_same_buffer
                (getConvergenceMap (depthmap_ pub))
                (getReferenceMask (depthmap_ pub)) y x) as [s Es];
      [congruence | congruence | by eexists |].
    unfold publishPointCloudRGB_pixel. rewrite Ed, Es. simpl.
    case_decide; [|done]. rewrite Em. simpl. by rewrite decide_False.
  - destruct (publishPointCloudRGB_returns ros pub Hpre) as (h & out & -> & _).
    eexists _, out, (projection_rgb (depthmap_ pub)). split_and!; [done..|].
    pose proof (survivors_rgb_points _ Hpre) as HF.
    revert Hnot. induction HF as [|yx p l k [_ Hp] _ IH]; [constructor|].
    intros Hnot. apply not_elem_of_cons in Hnot as [Hne Hnot].
    constructor; [done|]. by apply IH.
Qed.

End Claims.

(** A loop whose iterations move the state along a preorder does so too. *)
Lemma for_loop_preorder {St} (R : relation St) `{!PreOrder R}
    (body : Z → St → option St) (n : nat) (i : Z) (s s' : St) :
  (∀ j s s', body j s = Some s' → R s s') →
  for_loop n i body s = Some s' → R s s'.
Proof.
  intros Hb. revert i s. induction n as [|n IH]; intros i s; simpl.
  - by intros [= ->].
  - destruct (body i s) as [s1|] eqn:E; [|done]. simpl. intros H.
    etrans; [by eapply Hb | by eapply IH].
Qed.

#[global] Instance continues_preorder {P} : PreOrder (@continues P).
Proof.
  split.
  - intros pc. by unfold continues.
  - intros a b c. unfold continues. by etrans.
Qed.

Lemma zip_with_fixes {A B} (f : A → B → B) (l : list A) (k : list B) :
  length l = length k → (∀ a b, a ∈ l → f a b = b) → zip_with f l k = k.
Proof.
  revert k. induction l as [|a l IH]; intros [|b k] Hlen Hf; try done.
  simpl. rewrite Hf by left. f_equal. apply IH; [by injection Hlen|].
  intros a' b' Ha'. apply Hf. by right.
Qed.

Section Frames.
Context `{FA : FloatArith} `{CS : ConvergenceState}.
Implicit Types (dm : Depthmap) (pub : Publisher) (ros : Ros).

Lemma publishPointCloud_pixel_continues dm y x pc pc' :
  publishPointCloud_pixel dm y x pc = Some pc' → continues pc pc'.
Proof.
  unfold publishPointCloud_pixel, continues. intros H.
  destruct (Mat_at (getDepthmap dm) y x); [|done]. simpl in H.
  destruct (Mat_at (getConvergenceMap dm) y x); [|done]. simpl in H.
  case_decide.
  - destruct (Mat_at (getReferenceImage dm) y x); [|done].
    injection H as <-. simpl. by apply prefix_app_r.
  - by injection H as <-.
Qed.

Lemma publishPointCloudRGB_pixel_continues dm y x pc pc' :
  publishPointCloudRGB_pixel dm y x pc = Some pc' → continues pc pc'.
Proof.
  unfold publishPointCloudRGB_pixel, continues. intros H.
  destruct (Mat_at (getDepthmap dm) y x); [|done]. simpl in H.
  destruct (Mat_at (getConvergenceMap dm) y x); [|done]. simpl in H.
  case_decide; [|by injection H as <-].
  destruct (Mat_at (getReferenceMask dm) y x); [|done]. simpl in H.
  case_decide; [|by injection H as <-].
  destruct (Mat_at (getReferenceImageRGB dm) y x); [|done].
  injection H as <-. simpl. by apply prefix_app_r.
Qed.

Lemma publishDepthmap_frame ros pub pub' out :
  publishDepthmap ros pub = Some (pub', out) → call_frame pub pub'.
Proof.
  unfold publishDepthmap. destruct (nh_ok ros); intros [= <- <-]; by split_and!.
Qed.

Lemma publishPointCloud_frame ros pub pub' out :
  publishPointCloud ros pub = Some (pub', out) → call_frame pub pub'.
Proof.
  unfold publishPointCloud. intros H.
  destruct (for_upto _ _ _) as [pc|] eqn:E; [|done]. simpl in H.
  assert (continues (pc_ pub) pc) as Hc.
  { unfold for_upto in E. eapply for_loop_preorder; [apply _| |exact E].
    intros y pc1 pc2. unfold for_upto. apply for_loop_preorder; [apply _|].
    intros x. apply publishPointCloud_pixel_continues. }
  destruct (negb (empty pc)), (nh_ok ros); injection H as <- <-; by split_and!.
Qed.

Lemma publishPointCloudRGB_frame ros pub pub' out :
  publishPointCloudRGB ros pub = Some (pub', out) → call_frame pub pub'.
Proof.
  unfold publishPointCloudRGB. intros H.
  destruct (for_upto _ _ _) as [pc|] eqn:E; [|done]. simpl in H.
  assert (continues (pc_rgb_ pub) pc) as Hc.
  { unfold for_upto in E. eapply for_loop_preorder; [apply _| |exact E].
    intros y pc1 pc2. unfold for_upto. apply for_loop_preorder; [apply _|].
    intros x. apply publishPointCloudRGB_pixel_continues. }
  destruct (negb (empty pc)), (nh_ok ros); injection H as <- <-; by split_and!.
Qed.

Lemma publishConvergenceMap_frame ros pub pub' out :
  publishConvergenceMap ros pub = Some (pub', out) → call_frame pub pub'.
Proof.
  unfold publishConvergenceMap. intros H.
  destruct (for_upto _ _ _) as [m|]; [|done]. simpl in H.
  destruct (nh_ok ros); injection H as <- <-; by split_and!.
Qed.

Lemma call_frame_trans pub1 pub2 pub3 :
  call_frame pub1 pub2 → call_frame pub2 pub3 → call_frame pub1 pub3.
Proof.
  intros (E1 & A1 & B1) (E2 & A2 & B2). split_and!.
  - by rewrite E2.
  - by etrans.
  - by etrans.
Qed.

Lemma run_call_frame c pub pub' out :
  run_call c pub = Some (pub', out) → call_frame pub pub'.
Proof.
  destruct c as [ros|ros|ros|r1 r2 r3|ros]; simpl.
  - apply publishDepthmap_frame.
  - apply publishPointCloud_frame.
  - apply publishPointCloudRGB_frame.
  - unfold publishDepthmapAndPointCloud. intros H.
    destruct (publishDepthmap r1 pub) as [[p1 o1]|] eqn:E1; [|done].
    simpl in H.
    destruct (publishPointCloud r2 p1) as [[p2 o2]|] eqn:E2; [|done].
    simpl in H.
    destruct (publishPointCloudRGB r3 p2) as [[p3 o3]|] eqn:E3; [|done].
    simpl in H. injection H as <- <-.
    eapply call_frame_trans; [by eapply publishDepthmap_frame|].
    eapply call_frame_trans; [by eapply publishPointCloud_frame|].
    by eapply publishPointCloudRGB_frame.
  - apply publishConvergenceMap_frame.
Qed.

(** C7.  A call that returns leaves the shared depth-map object, with its
    depth map, convergence map, reference images and mask, as it found it. *)
Theorem calls_leave_depthmap c pub pub' out :
  run_call c pub = Some (pub', out) →
  depthmap_ pub' = depthmap_ pub ∧
  getDepthmap (depthmap_ pub') = getDepthmap (depthmap_ pub) ∧
  getConvergenceMap (depthmap_ pub') = getConvergenceMap (depthmap_ pub) ∧
  getReferenceImage (depthmap_ pub') = getReferenceImage (depthmap_ pub) ∧
  getReferenceImageRGB (depthmap_ pub') = getReferenceImageRGB (depthmap_ pub) ∧
  getReferenceMask (depthmap_ pub') = getReferenceMask (depthmap_ pub).
Proof.
  intros H. apply run_call_frame in H as [-> _]. by split_and!.
Qed.

(** C8.  The constructor leaves both clouds empty, and from then on they
    only grow: a projection call returns the cloud it found followed by the
    points of the pixels that pass its gate and leaves the other cloud
    alone, and along any history of calls and depth-map updates the points
    a cloud held before are still its first points afterwards. *)
Theorem clouds_only_grow :
  (∀ dm junk, points (pc_ (Publisher_new dm junk)) = [] ∧
              points (pc_rgb_ (Publisher_new dm junk)) = []) ∧
  (∀ ros pub,
     publishPointCloud_pre (depthmap_ pub) →
     ∃ pub' out,
       publishPointCloud ros pub = Some (pub', out) ∧
       points (pc_ pub') = points (pc_ pub) ++ projection (depthmap_ pub) ∧
       pc_rgb_ pub' = pc_rgb_ pub) ∧
  (∀ ros pub,
     publishPointCloudRGB_pre (depthmap_ pub) →
     ∃ pub' out,
       publishPointCloudRGB ros pub = Some (pub', out) ∧
       points (pc_rgb_ pub')
       = points (pc_rgb_ pub) ++ projection_rgb (depthmap_ pub) ∧
       pc_ pub' = pc_ pub) ∧
  (∀ pub pub',
     steps pub pub' →
     points (pc_ pub) `prefix_of` points (pc_ pub') ∧
     points (pc_rgb_ pub) `prefix_of` points (pc_rgb_ pub')).
Proof.
  split_and!.
  - done.
  - intros ros pub Hpre.
    destruct (publishPointCloud_returns ros pub Hpre) as (h & out & -> & _).
    by eexists _, _.
  - intros ros pub Hpre.
    destruct (publishPointCloudRGB_returns ros pub Hpre) as (h & out & -> & _).
    by eexists _, _.
  - intros pub pub' H. induction H as [pub|pub1 pub2 pub3 H12 _ IH]; [done|].
    destruct IH as [IH1 IH2].
    assert (points (pc_ pub1) `prefix_of` points (pc_ pub2) ∧
            points (pc_rgb_ pub1) `prefix_of` points (pc_rgb_ pub2)) as [H1 H2].
    { destruct H12 as [c pub pub' out Hc|dm pub]; [|done].
      by apply run_call_frame in Hc as (_ & ? & ?). }
    split; by etrans.
Qed.

End Frames.

Section Hyper.
Context `{FA : FloatArith} `{CS : ConvergenceState}.
Implicit Types (dm : Depthmap) (pub : Publisher) (ros : Ros).

Lemma back_project_agree dm1 dm2 y x d :
  getT_world_ref dm1 = getT_world_ref dm2 →
  getFx dm1 = getFx dm2 → getFy dm1 = getFy dm2 →
  getCx dm1 = getCx dm2 → getCy dm1 = getCy dm2 →
  back_project dm1 y x d = back_project dm2 y x d.
Proof. intros HT Hfx Hfy Hcx Hcy. unfold back_project. congruence. Qed.

Lemma raster_agree dm1 dm2 :
  same_size (getConvergenceMap dm1) (getDepthmap dm1) →
  same_size (getConvergenceMap dm2) (getDepthmap dm2) →
  getConvergenceMap dm1 = getConvergenceMap dm2 →
  raster (rows (getDepthmap dm1)) (cols (getDepthmap dm1))
  = raster (rows (getDepthmap dm2)) (cols (getDepthmap dm2)).
Proof. intros [<- <-] [<- <-] ->. done. Qed.

Lemma projection_agree dm1 dm2 :
  publishPointCloud_pre dm1 → publishPointCloud_pre dm2 →
  getConvergenceMap dm1 = getConvergenceMap dm2 →
  getT_world_ref dm1 = getT_world_ref dm2 →
  getFx dm1 = getFx dm2 → getFy dm1 = getFy dm2 →
  getCx dm1 = getCx dm2 → getCy dm1 = getCy dm2 →
  (∀ y x, converged dm1 (y, x) →
          Mat_at (getDepthmap dm1) y x = Mat_at (getDepthmap dm2) y x ∧
          Mat_at (getReferenceImage dm1) y x = Mat_at (getReferenceImage dm2) y x) →
  projection dm1 = projection dm2.
Proof.
  intros (_ & _ & Hs1 & _) (_ & _ & Hs2 & _) Hc HT Hfx Hfy Hcx Hcy Hag.
  unfold projection.
  assert (survivors dm1 = survivors dm2) as <-.
  { unfold survivors. rewrite (raster_agree dm1 dm2) by done.
    apply list_filter_iff. intros yx. unfold converged. by rewrite Hc. }
  apply omap_ext_Forall, Forall_forall. intros [y x] Hyx.
  apply list_elem_of_filter in Hyx as [Hcv _].
  destruct (Hag y x Hcv) as [Ed Ei]. unfold point_of. simpl.
  rewrite Ed, Ei. destruct (Mat_at (getDepthmap dm2) y x) as [d|]; [|done].
  simpl. by rewrite (back_project_agree dm1 dm2).
Qed.

Lemma projection_rgb_agree dm1 dm2 :
  publishPointCloudRGB_pre dm1 → publishPointCloudRGB_pre dm2 →
  getConvergenceMap dm1 = getConvergenceMap dm2 →
  getReferenceMask dm1 = getReferenceMask dm2 →
  getT_world_ref dm1 = getT_world_ref dm2 →
  getFx dm1 = getFx dm2 → getFy dm1 = getFy dm2 →
  getCx dm1 = getCx dm2 → getCy dm1 = getCy dm2 →
  (∀ y x, converged dm1 (y, x) → mask_is_1 dm1 (y, x) →
          Mat_at (getDepthmap dm1) y x = Mat_at (getDepthmap dm2) y x ∧
          Mat_at (getReferenceImageRGB dm1) y x
          = Mat_at (getReferenceImageRGB dm2) y x) →
  projection_rgb dm1 = projection_rgb dm2.
Proof.
  intros (_ & _ & Hs1 & _) (_ & _ & Hs2 & _) Hc Hm HT Hfx Hfy Hcx Hcy Hag.
  unfold projection_rgb.
  assert (survivors_rgb dm1 = survivors_rgb dm2) as <-.
  { unfold survivors_rgb. rewrite (raster_agree dm1 dm2) by done.
    apply list_filter_iff. intros yx. unfold converged, mask_is_1.
    by rewrite Hc, Hm. }
  apply omap_ext_Forall, Forall_forall. intros [y x] Hyx.
  apply list_elem_of_filter in Hyx as [[Hcv Hmk] _].
  destruct (Hag y x Hcv Hmk) as [Ed Ei]. unfold point_rgb_of. simpl.
  rewrite Ed, Ei. destruct (Mat_at (getDepthmap dm2) y x) as [d|]; [|done].
  simpl. by rewrite (back_project_agree dm1 dm2).
Qed.

(** C10.  Two snapshots with the same convergence map, mask, pose and
    intrinsics, which agree on the depth and on the reference value at
    every pixel that passes the gate of a projection, make that projection
    append the same points: started on the same cloud, the two calls
    return the same cloud and publish the same messages, whatever the
    depth, intensity and colour at the other pixels. *)
Theorem projections_ignore_gated_out_pixels ros pub1 pub2 :
  getConvergenceMap (depthmap_ pub1) = getConvergenceMap (depthmap_ pub2) →
  getReferenceMask (depthmap_ pub1) = getReferenceMask (depthmap_ pub2) →
  getT_world_ref (depthmap_ pub1) = getT_world_ref (depthmap_ pub2) →
  getFx (depthmap_ pub1) = getFx (depthmap_ pub2) →
  getFy (depthmap_ pub1) = getFy (depthmap_ pub2) →
  getCx (depthmap_ pub1) = getCx (depthmap_ pub2) →
  getCy (depthmap_ pub1) = getCy (depthmap_ pub2) →
  (publishPointCloud_pre (depthmap_ pub1) →
   publishPointCloud_pre (depthmap_ pub2) →
   (∀ y x, converged (depthmap_ pub1) (y, x) →
      Mat_at (getDepthmap (depthmap_ pub1)) y x
      = Mat_at (getDepthmap (depthmap_ pub2)) y x ∧
      Mat_at (getReferenceImage (depthmap_ pub1)) y x
      = Mat_at (getReferenceImage (depthmap_ pub2)) y x) →
   pc_ pub1 = pc_ pub2 →
   ∃ pub1' pub2' out,
     publishPointCloud ros pub1 = Some (pub1', out) ∧
     publishPointCloud ros pub2 = Some (pub2', out) ∧
     pc_ pub1' = pc_ pub2') ∧
  (publishPointCloudRGB_pre (depthmap_ pub1) →
   publishPointCloudRGB_pre (depthmap_ pub2) →
   (∀ y x, converged (depthmap_ pub1) (y, x) → mask_is_1 (depthmap_ pub1) (y, x) →
      Mat_at (getDepthmap (depthmap_ pub1)) y x
      = Mat_at (getDepthmap (depthmap_ pub2)) y x ∧
      Mat_at (getReferenceImageRGB (depthmap_ pub1)) y x
      = Mat_at (getReferenceImageRGB (depthmap_ pub2)) y x) →
   pc_rgb_ pub1 = pc_rgb_ pub2 →
   ∃ pub1' pub2' out,
     publishPointCloudRGB ros pub1 = Some (pub1', out) ∧
     publishPointCloudRGB ros pub2 = Some (pub2', out) ∧
     pc_rgb_ pub1' = pc_rgb_ pub2').
Proof.
  intros Hc Hm HT Hfx Hfy Hcx Hcy. split.
  - intros H1 H2 Hag Hpc. unfold publishPointCloud.
    rewrite !publishPointCloud_loop by done.
    rewrite (projection_agree _ _ H1 H2) by done. rewrite Hpc. simpl.
    destruct (negb _), (nh_ok ros); by eexists _, _, _.
  - intros H1 H2 Hag Hpc. unfold publishPointCloudRGB.
    rewrite !publishPointCloudRGB_loop by done.
    rewrite (projection_rgb_agree _ _ H1 H2) by done. rewrite Hpc. simpl.
    destruct (negb _), (nh_ok ros); by eexists _, _, _.
Qed.

Lemma no_CONVERGED_survivors dm :
  publishPointCloud_pre dm →
  CONVERGED ∉ data (getConvergenceMap dm) → projection dm = [].
Proof.
  intros Hpre Hno. pose proof (length_survivors dm Hpre) as Hlen.
  unfold count_CONVERGED in Hlen. unfold projection.
  destruct (survivors dm); [done|]. exfalso. simpl in Hlen.
  destruct (filter _ (data _)) as [|s l'] eqn:E; [done|].
  assert (s ∈ filter (λ s, s = CONVERGED) (data (getConvergenceMap dm))) as Hs
    by (rewrite E; left).
  apply list_elem_of_filter in Hs as [-> Hs]. done.
Qed.

Lemma no_CONVERGED_survivors_rgb dm :
  publishPointCloudRGB_pre dm →
  CONVERGED ∉ data (getConvergenceMap dm) → projection_rgb dm = [].
Proof.
  intros Hpre Hno. pose proof (length_survivors_rgb dm Hpre) as Hlen.
  unfold count_CONVERGED_mask_1 in Hlen. unfold projection_rgb.
  destruct (survivors_rgb dm); [done|]. exfalso. simpl in Hlen.
  destruct (filter _ (zip _ _)) as [|[s m] l'] eqn:E; [done|].
  assert ((s, m) ∈ filter (λ sm : Z * uchar, sm.1 = CONVERGED ∧ uchar_to_Z sm.2 = 1)
            (zip (data (getConvergenceMap dm)) (data (getReferenceMask dm)))) as Hs
    by (rewrite E; left).
  apply list_elem_of_filter in Hs as [[Hs _] Hin]. simpl in Hs. subst s.
  apply elem_of_zip_l in Hin. done.
Qed.

(** C6, as the code has it.  When no pixel is CONVERGED, both projections
    return, append nothing, and publish nothing if the cloud was empty;
    when moreover no pixel is DIVERGED, the rendered image is the grey
    reference image with its value in all three channels. *)
Theorem nothing_converged ros pub :
  CONVERGED ∉ data (getConvergenceMap (depthmap_ pub)) →
  (publishPointCloud_pre (depthmap_ pub) →
   ∃ pub' out,
     publishPointCloud ros pub = Some (pub', out) ∧
     points (pc_ pub') = points (pc_ pub) ∧
     (points (pc_ pub) = [] → out = [])) ∧
  (publishPointCloudRGB_pre (depthmap_ pub) →
   ∃ pub' out,
     publishPointCloudRGB ros pub = Some (pub', out) ∧
     points (pc_rgb_ pub') = points (pc_rgb_ pub) ∧
     (points (pc_rgb_ pub) = [] → out = [])) ∧
  (publishConvergenceMap_pre (depthmap_ pub) →
   DIVERGED ∉ data (getConvergenceMap (depthmap_ pub)) →
   ∃ pub' out,
     publishConvergenceMap ros pub = Some (pub', out) ∧
     colored_ pub' = cvtColor_GRAY2BGR (getReferenceImage (depthmap_ pub))).
Proof.
  intros Hno. split_and!.
  - intros Hpre.
    destruct (publishPointCloud_returns ros pub Hpre) as (h & out & -> & Ho & _).
    rewrite no_CONVERGED_survivors in * by done. rewrite app_nil_r in *.
    by eexists _, _.
  - intros Hpre.
    destruct (publishPointCloudRGB_returns ros pub Hpre) as (h & out & -> & Ho & _).
    rewrite no_CONVERGED_survivors_rgb in * by done. rewrite app_nil_r in *.
    by eexists _, _.
  - intros Hpre Hnd. rewrite publishConvergenceMap_returns by done.
    eexists _, _. split; [done|]. simpl. unfold rendering, cvtColor_GRAY2BGR.
    simpl. f_equal. destruct Hpre as ((_ & _ & Hl1) & (_ & _ & Hl2) & [Hr Hc]).
    apply zip_with_fixes.
    + rewrite length_fmap. congruence.
    + intros s v Hs. unfold tint. rewrite !decide_False; [done|..].
      * by intros ->.
      * by intros ->.
Qed.

(** C1, as the code has it.  Rendering twice from an unchanged snapshot
    draws the same image twice, and with the same answers of the runtime
    publishes the same message and leaves the same publisher.  A
    projection called twice appends the same points each time, so the
    cloud after the second call is the cloud after the first followed by
    those points once more. *)
Theorem repeated_calls ros1 ros2 pub :
  (publishConvergenceMap_pre (depthmap_ pub) →
   ∃ pub1 out1 pub2 out2,
     publishConvergenceMap ros1 pub = Some (pub1, out1) ∧
     publishConvergenceMap ros2 pub1 = Some (pub2, out2) ∧
     colored_ pub2 = colored_ pub1 ∧
     (ros2 = ros1 → out2 = out1 ∧ pub2 = pub1)) ∧
  (publishPointCloud_pre (depthmap_ pub) →
   ∃ pub1 out1 pub2 out2,
     publishPointCloud ros1 pub = Some (pub1, out1) ∧
     publishPointCloud ros2 pub1 = Some (pub2, out2) ∧
     points (pc_ pub1) = points (pc_ pub) ++ projection (depthmap_ pub) ∧
     points (pc_ pub2) = points (pc_ pub1) ++ projection (depthmap_ pub)) ∧
  (publishPointCloudRGB_pre (depthmap_ pub) →
   ∃ pub1 out1 pub2 out2,
     publishPointCloudRGB ros1 pub = Some (pub1, out1) ∧
     publishPointCloudRGB ros2 pub1 = Some (pub2, out2) ∧
     points (pc_rgb_ pub1)
     = points (pc_rgb_ pub) ++ projection_rgb (depthmap_ pub) ∧
     points (pc_rgb_ pub2)
     = points (pc_rgb_ pub1) ++ projection_rgb (depthmap_ pub)).
Proof.
  split_and!.
  - intros Hpre.
    set (pub1 := with_colored (rendering (depthmap_ pub)) pub).
    pose proof (publishConvergenceMap_returns ros1 pub Hpre) as E1.
    pose proof (publishConvergenceMap_returns ros2 pub1 Hpre) as E2.
    eexists pub1, _, _, _. split; [exact E1|]. split; [exact E2|].
    split; [done|]. by intros ->.
  - intros Hpre.
    destruct (publishPointCloud_returns ros1 pub Hpre) as (h1 & out1 & -> & _).
    eexists _, out1.
    edestruct (publishPointCloud_returns ros2) as (h2 & out2 & -> & _);
      [|by eexists _, out2]. done.
  - intros Hpre.
    destruct (publishPointCloudRGB_returns ros1 pub Hpre) as (h1 & out1 & -> & _).
    eexists _, out1.
    edestruct (publishPointCloudRGB_returns ros2) as (h2 & out2 & -> & _);
      [|by eexists _, out2]. done.
Qed.

End Hyper.

(** * Further properties of the publisher *)

Section Definedness.
Context `{FA : FloatArith} `{CS : ConvergenceState}.
Implicit Types (dm : Depthmap) (pub : Publisher) (ros : Ros).

Lemma publishPointCloud_pixel_reads dm y x pc :
  publishPointCloud_reads dm y x →
  publishPointCloud_pixel dm y x pc
  = Some (extend pc (omap (point_of dm) (filter (converged dm) [(y, x)]))).
Proof.
  intros ([d Ed] & [s Es] & Hi).
  unfold publishPointCloud_pixel. rewrite Ed, Es. simpl.
  rewrite (filter_cons _ (y, x) []), filter_nil.
  destruct (decide (CONVERGED = s)) as [<-|Hne].
  - destruct Hi as [i Ei]; [done|].
    rewrite decide_True by done. rewrite Ei. simpl.
    unfold point_of. simpl. by rewrite Ed, Ei.
  - rewrite decide_False by (unfold converged; simpl; congruence).
    simpl. by rewrite extend_nil.
Qed.

Lemma publishPointCloud_pixel_Some dm y x pc pc' :
  publishPointCloud_pixel dm y x pc = Some pc' → publishPointCloud_reads dm y x.
Proof.
  unfold publishPointCloud_pixel, publishPointCloud_reads, converged. simpl.
  destruct (Mat_at (getDepthmap dm) y x) as [d|]; [|done]. simpl.
  destruct (Mat_at (getConvergenceMap dm) y x) as [s|]; [|done]. simpl.
  intros H. split_and!; [done..|]. intros [= ->].
  rewrite decide_True in H by done.
  by destruct (Mat_at (getReferenceImage dm) y x).
Qed.

Lemma publishPointCloudRGB_pixel_reads dm y x pc :
  publishPointCloudRGB_reads dm y x →
  publishPointCloudRGB_pixel dm y x pc
  = Some (extend pc (omap (point_rgb_of dm)
                       (filter (λ yx, converged dm yx ∧ mask_is_1 dm yx) [(y, x)]))).
Proof.
  intros ([d Ed] & [s Es] & Hm).
  unfold publishPointCloudRGB_pixel. rewrite Ed, Es. simpl.
  rewrite (filter_cons _ (y, x) []), filter_nil.
  destruct (decide (CONVERGED = s)) as [<-|Hne].
  - destruct Hm as [[m Em] Hv]; [done|]. rewrite Em. simpl.
    assert (mask_is_1 dm (y, x) ↔ uchar_to_Z m = 1) as Hmask.
    { unfold mask_is_1. simpl. rewrite Em. simpl.
      split; [by intros [= ->] | by intros ->]. }
    destruct (decide (uchar_to_Z m = 1)) as [E1|E1].
    + destruct Hv as [v Ev]; [by apply Hmask|].
      rewrite decide_True by (split; [done | by apply Hmask]).
      rewrite Ev. simpl. unfold point_rgb_of. simpl. by rewrite Ed, Ev.
    + rewrite decide_False by (intros [_ ?]; by apply E1, Hmask).
      simpl. by rewrite extend_nil.
  - rewrite decide_False
      by (intros [? _]; unfold converged in *; simpl in *; congruence).
    simpl. by rewrite extend_nil.
Qed.

Lemma publishPointCloudRGB_pixel_Some dm y x pc pc' :
  publishPointCloudRGB_pixel dm y x pc = Some pc' →
  publishPointCloudRGB_reads dm y x.
Proof.
  unfold publishPointCloudRGB_pixel, publishPointCloudRGB_reads,
    converged, mask_is_1. simpl.
  destruct (Mat_at (getDepthmap dm) y x) as [d|]; [|done]. simpl.
  destruct (Mat_at (getConvergenceMap dm) y x) as [s|]; [|done]. simpl.
  intros H. split_and!; [done..|]. intros [= ->].
  rewrite decide_True in H by done.
  destruct (Mat_at (getReferenceMask dm) y x) as [m|]; [|done]. simpl in *.
  split; [done|]. intros [= E1]. rewrite decide_True in H by done.
  by destruct (Mat_at (getReferenceImageRGB dm) y x).
Qed.

Lemma publishPointCloud_pre_defined dm :
  publishPointCloud_pre dm → publishPointCloud_defined dm.
Proof.
  intros (Hd & Hc & Hcs & Hi & His) y x Hy Hx.
  assert (Mat_inside (getDepthmap dm) y x) as Hin by done.
  split_and!.
  - by apply Mat_at_is_Some.
  - apply Mat_at_is_Some; [done | by eapply Mat_inside_same_size].
  - intros _. apply Mat_at_is_Some; [done | by eapply Mat_inside_same_size].
Qed.

Lemma publishPointCloudRGB_pre_defined dm :
  publishPointCloudRGB_pre dm → publishPointCloudRGB_defined dm.
Proof.
  intros (Hd & Hc & Hcs & Hi & His & Hm & Hms) y x Hy Hx.
  assert (Mat_inside (getDepthmap dm) y x) as Hin by done.
  split_and!.
  - by apply Mat_at_is_Some.
  - apply Mat_at_is_Some; [done | by eapply Mat_inside_same_size].
  - intros _. split.
    + apply Mat_at_is_Some; [done | by eapply Mat_inside_same_size].
    + intros _. apply Mat_at_is_Some; [done | by eapply Mat_inside_same_size].
Qed.

Lemma publishPointCloud_loop_defined dm pc :
  publishPointCloud_defined dm →
  for_upto (rows (getDepthmap dm)) (λ y,
    for_upto (cols (getDepthmap dm)) (λ x, publishPointCloud_pixel dm y x)) pc
  = Some (extend pc (projection dm)).
Proof.
  intros Hdef.
  rewrite (for_raster_extend
             (λ yx, omap (point_of dm) (filter (converged dm) [yx]))).
  - by rewrite omap_filter_bind.
  - intros y x pc' Hy Hx. by apply publishPointCloud_pixel_reads, Hdef.
Qed.

Lemma publishPointCloudRGB_loop_defined dm pc :
  publishPointCloudRGB_defined dm →
  for_upto (rows (getDepthmap dm)) (λ y,
    for_upto (cols (getDepthmap dm)) (λ x, publishPointCloudRGB_pixel dm y x)) pc
  = Some (extend pc (projection_rgb dm)).
Proof.
  intros Hdef.
  rewrite (for_raster_extend
             (λ yx, omap (point_rgb_of dm)
                      (filter (λ yx, converged dm yx ∧ mask_is_1 dm yx) [yx]))).
  - by rewrite omap_filter_bind.
  - intros y x pc' Hy Hx. by apply publishPointCloudRGB_pixel_reads, Hdef.
Qed.

Lemma publishPointCloud_loop_undefined dm pc y x :
  0 ≤ y < rows (getDepthmap dm) → 0 ≤ x < cols (getDepthmap dm) →
  ¬ publishPointCloud_reads dm y x →
  for_upto (rows (getDepthmap dm)) (λ y,
    for_upto (cols (getDepthmap dm)) (λ x, publishPointCloud_pixel dm y x)) pc
  = None.
Proof.
  intros Hy Hx Hno. apply (for_upto_fails _ _ y); [done|].
  intros pc1. apply (for_upto_fails _ _ x); [done|].
  intros pc2. destruct (publishPointCloud_pixel dm y x pc2) eqn:E; [|done].
  by apply publishPointCloud_pixel_Some in E.
Qed.

Lemma publishPointCloudRGB_loop_undefined dm pc y x :
  0 ≤ y < rows (getDepthmap dm) → 0 ≤ x < cols (getDepthmap dm) →
  ¬ publishPointCloudRGB_reads dm y x →
  for_upto (rows (getDepthmap dm)) (λ y,
    for_upto (cols (getDepthmap dm)) (λ x, publishPointCloudRGB_pixel dm y x)) pc
  = None.
Proof.
  intros Hy Hx Hno. apply (for_upto_fails _ _ y); [done|].
  intros pc1. apply (for_upto_fails _ _ x); [done|].
  intros pc2. destruct (publishPointCloudRGB_pixel dm y x pc2) eqn:E; [|done].
  by apply publishPointCloudRGB_pixel_Some in E.
Qed.

(** The result of each projection, when it has one. *)
Lemma publishPointCloud_result ros pub :
  publishPointCloud_defined (depthmap_ pub) →
  publishPointCloud ros pub
  = Some (let pc := extend (pc_ pub) (projection (depthmap_ pub)) in
          let pc' := set_header (mkHeader "world" (time_now ros)) pc in
          if negb (empty pc) && nh_ok ros
          then (with_pc pc' pub, [Cloud "remode/pointcloud" pc'])
          else (with_pc pc pub, [])).
Proof.
  intros Hdef. unfold publishPointCloud.
  rewrite publishPointCloud_loop_defined by done. simpl.
  by destruct (negb _), (nh_ok ros).
Qed.

Lemma publishPointCloudRGB_result ros pub :
  publishPointCloudRGB_defined (depthmap_ pub) →
  publishPointCloudRGB ros pub
  = Some (let pc := extend (pc_rgb_ pub) (projection_rgb (depthmap_ pub)) in
          let pc' := set_header (mkHeader "world" (time_now ros)) pc in
          if negb (empty pc) && nh_ok ros
          then (with_pc_rgb pc' pub, [CloudRGB "remode/rgb_pointcloud" pc'])
          else (with_pc_rgb pc pub, [])).
Proof.
  intros Hdef. unfold publishPointCloudRGB.
  rewrite publishPointCloudRGB_loop_defined by done. simpl.
  by destruct (negb _), (nh_ok ros).
Qed.

Lemma publishPointCloud_Some_defined ros pub :
  is_Some (publishPointCloud ros pub) →
  publishPointCloud_defined (depthmap_ pub).
Proof.
  intros Hs y x Hy Hx.
  destruct (decide (publishPointCloud_reads (depthmap_ pub) y x)) as [|Hn];
    [done|].
  unfold publishPointCloud in Hs.
  rewrite (publishPointCloud_loop_undefined _ _ y x) in Hs by done.
  by destruct Hs.
Qed.

Lemma publishPointCloudRGB_Some_defined ros pub :
  is_Some (publishPointCloudRGB ros pub) →
  publishPointCloudRGB_defined (depthmap_ pub).
Proof.
  intros Hs y x Hy Hx.
  destruct (decide (publishPointCloudRGB_reads (depthmap_ pub) y x)) as [|Hn];
    [done|].
  unfold publishPointCloudRGB in Hs.
  rewrite (publishPointCloudRGB_loop_undefined _ _ y x) in Hs by done.
  by destruct Hs.
Qed.

Lemma empty_nil {P} (pc : PointCloud P) : empty pc = true ↔ points pc = [].
Proof. unfold empty. by destruct (points pc). Qed.

(** X1.  [publishPointCloud] stays inside the buffers, and so has a
    result, exactly when for every pixel [(y, x)] of the depth map the
    depth buffer and the convergence buffer have a cell at the offset
    [at(y, x)] computes (y times the grid's own [cols], plus x), and so has
    the grey buffer when the state read there is CONVERGED; the grey image
    is not read anywhere else.  With a result, the cloud is the old one
    followed by the points of the CONVERGED pixels. *)
Theorem publishPointCloud_defined_iff ros pub :
  (is_Some (publishPointCloud ros pub)
   ↔ publishPointCloud_defined (depthmap_ pub)) ∧
  ∀ pub' out,
    publishPointCloud ros pub = Some (pub', out) →
    points (pc_ pub') = points (pc_ pub) ++ projection (depthmap_ pub).
Proof.
  split.
  - split; [apply publishPointCloud_Some_defined|].
    intros Hdef. rewrite publishPointCloud_result by done. by eexists.
  - intros pub' out E.
    rewrite publishPointCloud_result in E
      by (eapply publishPointCloud_Some_defined; by eexists).
    simpl in E. by destruct (negb _ && _); injection E as <- <-.
Qed.

(** X2.  [publishPointCloudRGB] stays inside the buffers, and so has a
    result, exactly when for every pixel [(y, x)] of the depth map the
    depth buffer and the convergence buffer have a cell at the offset
    [at(y, x)] computes (y times the grid's own [cols], plus x), the mask
    buffer has one when the state read there is CONVERGED, and the colour
    buffer has one when moreover the mask read there is 1: the second
    operand of [&&] and the colour are read on demand.  With a result, the
    cloud is the old one followed by the points of the pixels that pass
    the gate. *)
Theorem publishPointCloudRGB_defined_iff ros pub :
  (is_Some (publishPointCloudRGB ros pub)
   ↔ publishPointCloudRGB_defined (depthmap_ pub)) ∧
  ∀ pub' out,
    publishPointCloudRGB ros pub = Some (pub', out) →
    points (pc_rgb_ pub')
    = points (pc_rgb_ pub) ++ projection_rgb (depthmap_ pub).
Proof.
  split.
  - split; [apply publishPointCloudRGB_Some_defined|].
    intros Hdef. rewrite publishPointCloudRGB_result by done. by eexists.
  - intros pub' out E.
    rewrite publishPointCloudRGB_result in E
      by (eapply publishPointCloudRGB_Some_defined; by eexists).
    simpl in E. by destruct (negb _ && _); injection E as <- <-.
Qed.

End Definedness.

Section Publication.
Context `{FA : FloatArith} `{CS : ConvergenceState}.
Implicit Types (dm : Depthmap) (pub : Publisher) (ros : Ros).

(** X3.  When [publishPointCloud] has a result, it changes the uncolored
    cloud only.  If the node is up and the cloud is not empty after the
    loop, the cloud gets the frame "world" and the time of the call, and
    one message goes out, on "remode/pointcloud", carrying the cloud as it
    is stored; otherwise nothing goes out and the header stays as it was,
    but the points of this call are stored all the same. *)
Theorem publishPointCloud_publication ros pub pub' out :
  publishPointCloud ros pub = Some (pub', out) →
  pub' = with_pc (pc_ pub') pub ∧
  points (pc_ pub') = points (pc_ pub) ++ projection (depthmap_ pub) ∧
  (nh_ok ros = true → points (pc_ pub') ≠ [] →
   header (pc_ pub') = mkHeader "world" (time_now ros) ∧
   out = [Cloud "remode/pointcloud" (pc_ pub')]) ∧
  (nh_ok ros = false ∨ points (pc_ pub') = [] →
   header (pc_ pub') = header (pc_ pub) ∧ out = []).
Proof.
  intros E.
  rewrite publishPointCloud_result in E
    by (eapply publishPointCloud_Some_defined; by eexists).
  simpl in E.
  destruct (empty _) eqn:Ee; simpl in E.
  - injection E as <- <-. apply empty_nil in Ee. simpl in *.
    split_and!; [done..| |done]. by intros _ ?.
  - assert (points (pc_ pub) ++ projection (depthmap_ pub) ≠ []) as Hne.
    { intros Hn. apply (empty_nil (extend (pc_ pub) _)) in Hn. congruence. }
    destruct (nh_ok ros); injection E as <- <-; simpl.
    + split_and!; [done..|]. by intros [?|?].
    + split_and!; [done..| |done]. by intros ?.
Qed.

(** X4.  When [publishPointCloudRGB] has a result, it changes the colored
    cloud only.  If the node is up and the cloud is not empty after the
    loop, the cloud gets the frame "world" and the time of the call, and
    one message goes out, on "remode/rgb_pointcloud", carrying the cloud
    as it is stored; otherwise nothing goes out and the header stays as it
    was, but the points of this call are stored all the same. *)
Theorem publishPointCloudRGB_publication ros pub pub' out :
  publishPointCloudRGB ros pub = Some (pub', out) →
  pub' = with_pc_rgb (pc_rgb_ pub') pub ∧
  points (pc_rgb_ pub')
  = points (pc_rgb_ pub) ++ projection_rgb (depthmap_ pub) ∧
  (nh_ok ros = true → points (pc_rgb_ pub') ≠ [] →
   header (pc_rgb_ pub') = mkHeader "world" (time_now ros) ∧
   out = [CloudRGB "remode/rgb_pointcloud" (pc_rgb_ pub')]) ∧
  (nh_ok ros = false ∨ points (pc_rgb_ pub') = [] →
   header (pc_rgb_ pub') = header (pc_rgb_ pub) ∧ out = []).
Proof.
  intros E.
  rewrite publishPointCloudRGB_result in E
    by (eapply publishPointCloudRGB_Some_defined; by eexists).
  simpl in E.
  destruct (empty _) eqn:Ee; simpl in E.
  - injection E as <- <-. apply empty_nil in Ee. simpl in *.
    split_and!; [done..| |done]. by intros _ ?.
  - assert (points (pc_rgb_ pub) ++ projection_rgb (depthmap_ pub) ≠ []) as Hne.
    { intros Hn. apply (empty_nil (extend (pc_rgb_ pub) _)) in Hn. congruence. }
    destruct (nh_ok ros); injection E as <- <-; simpl.
    + split_and!; [done..|]. by intros [?|?].
    + split_and!; [done..| |done]. by intros ?.
Qed.

(** X5.  A projection called on a snapshot without CONVERGED pixels, by a
    publisher whose cloud holds points of earlier calls, publishes those
    points again under the time of this call. *)
Theorem projections_publish_old_points ros pub :
  CONVERGED ∉ data (getConvergenceMap (depthmap_ pub)) →
  nh_ok ros = true →
  (publishPointCloud_pre (depthmap_ pub) → points (pc_ pub) ≠ [] →
   ∃ pub',
     publishPointCloud ros pub
     = Some (pub', [Cloud "remode/pointcloud"
                      (mkPointCloud (mkHeader "world" (time_now ros))
                                    (points (pc_ pub)))])) ∧
  (publishPointCloudRGB_pre (depthmap_ pub) → points (pc_rgb_ pub) ≠ [] →
   ∃ pub',
     publishPointCloudRGB ros pub
     = Some (pub', [CloudRGB "remode/rgb_pointcloud"
                      (mkPointCloud (mkHeader "world" (time_now ros))
                                    (points (pc_rgb_ pub)))])).
Proof.
  intros Hno Hok. split.
  - intros Hpre Hne.
    rewrite publishPointCloud_result by (by apply publishPointCloud_pre_defined).
    rewrite no_CONVERGED_survivors by done. simpl.
    unfold empty, extend, set_header. simpl.
    rewrite app_nil_r, Hok. destruct (points (pc_ pub)); [done|].
    by eexists.
  - intros Hpre Hne.
    rewrite publishPointCloudRGB_result
      by (by apply publishPointCloudRGB_pre_defined).
    rewrite no_CONVERGED_survivors_rgb by done. simpl.
    unfold empty, extend, set_header. simpl.
    rewrite app_nil_r, Hok. destruct (points (pc_rgb_ pub)); [done|].
    by eexists.
Qed.

(** X6.  The first call of a projection by a publisher fresh from the
    constructor, on a snapshot whose grids have the size of the depth map:
    with the node up and at least one CONVERGED pixel it publishes one
    cloud whose points are exactly those of the CONVERGED pixels, as many
    as the convergence map has CONVERGED cells; otherwise it publishes
    nothing. *)
Theorem first_publishPointCloud dm junk ros :
  publishPointCloud_pre dm →
  length (projection dm) = count_CONVERGED (getConvergenceMap dm) ∧
  snd <$> publishPointCloud ros (Publisher_new dm junk)
  = Some (if nh_ok ros && negb (bool_decide (count_CONVERGED (getConvergenceMap dm) = 0%nat))
          then [Cloud "remode/pointcloud"
                  (mkPointCloud (mkHeader "world" (time_now ros)) (projection dm))]
          else []).
Proof.
  intros Hpre.
  assert (length (projection dm) = count_CONVERGED (getConvergenceMap dm)) as Hl.
  { rewrite <- length_survivors by done. symmetry.
    eapply Forall2_length, survivors_points. done. }
  split; [done|].
  rewrite publishPointCloud_result by (by apply publishPointCloud_pre_defined).
  simpl. rewrite <- Hl. unfold empty, extend, set_header. simpl.
  destruct (projection dm); simpl; [by rewrite andb_false_r|].
  by destruct (nh_ok ros).
Qed.

End Publication.

Section Sequences.
Context `{FA : FloatArith} `{CS : ConvergenceState}.
Implicit Types (dm : Depthmap) (pub : Publisher) (ros : Ros).

(** X7.  Calling a projection [k] times on a snapshot that stays as it is
    leaves the cloud with [k] more copies of that call's points: the
    cloud grows by the same amount at every call, and nothing shrinks it. *)
Theorem repeated_projection_grows (rs : list Ros) pub :
  (publishPointCloud_defined (depthmap_ pub) →
   ∃ pub' out,
     run_calls (CallPointCloud <$> rs) pub = Some (pub', out) ∧
     depthmap_ pub' = depthmap_ pub ∧
     points (pc_ pub')
     = points (pc_ pub)
       ++ mjoin (replicate (length rs) (projection (depthmap_ pub)))) ∧
  (publishPointCloudRGB_defined (depthmap_ pub) →
   ∃ pub' out,
     run_calls (CallPointCloudRGB <$> rs) pub = Some (pub', out) ∧
     depthmap_ pub' = depthmap_ pub ∧
     points (pc_rgb_ pub')
     = points (pc_rgb_ pub)
       ++ mjoin (replicate (length rs) (projection_rgb (depthmap_ pub)))).
Proof.
  split.
  - revert pub. induction rs as [|ros rs IH]; intros pub Hdef.
    + eexists _, _. simpl. split; [done|]. by rewrite app_nil_r.
    + rewrite fmap_cons. cbn [run_calls run_call].
      rewrite publishPointCloud_result by done. cbv zeta.
      match goal with
      | |- context [if ?b then (?p1, ?o1) else (?p2, ?o2)] =>
          assert (∃ p o, (if b then (p1, o1) else (p2, o2)) = (p, o) ∧
                         depthmap_ p = depthmap_ pub ∧
                         points (pc_ p)
                         = points (pc_ pub) ++ projection (depthmap_ pub))
            as (p & o & -> & Ed & Ep)
            by (destruct b; by eexists _, _)
      end.
      destruct (IH p) as (pub' & out & E' & Ed' & Ep'); [by rewrite Ed|].
      cbn [mbind option_bind]. rewrite E'.
      eexists _, _. cbn [mbind option_bind]. split; [done|].
      split; [congruence|].
      rewrite Ep', Ep, Ed. cbn [length replicate mjoin list_join].
      by rewrite <- app_assoc.
  - revert pub. induction rs as [|ros rs IH]; intros pub Hdef.
    + eexists _, _. simpl. split; [done|]. by rewrite app_nil_r.
    + rewrite fmap_cons. cbn [run_calls run_call].
      rewrite publishPointCloudRGB_result by done. cbv zeta.
      match goal with
      | |- context [if ?b then (?p1, ?o1) else (?p2, ?o2)] =>
          assert (∃ p o, (if b then (p1, o1) else (p2, o2)) = (p, o) ∧
                         depthmap_ p = depthmap_ pub ∧
                         points (pc_rgb_ p)
                         = points (pc_rgb_ pub)
                           ++ projection_rgb (depthmap_ pub))
            as (p & o & -> & Ed & Ep)
            by (destruct b; by eexists _, _)
      end.
      destruct (IH p) as (pub' & out & E' & Ed' & Ep'); [by rewrite Ed|].
      cbn [mbind option_bind]. rewrite E'.
      eexists _, _. cbn [mbind option_bind]. split; [done|].
      split; [congruence|].
      rewrite Ep', Ep, Ed. cbn [length replicate mjoin list_join].
      by rewrite <- app_assoc.
Qed.

(** Each operation reads, besides the depth map, only the member it
    writes. *)
Lemma publishPointCloud_with_pc_rgb ros pub pc :
  publishPointCloud ros (with_pc_rgb pc pub)
  = prod_map (with_pc_rgb pc) id <$> publishPointCloud ros pub.
Proof.
  unfold publishPointCloud. simpl.
  destruct (for_upto _ _ _) as [pc'|]; [|done]. simpl.
  by destruct (negb _), (nh_ok ros).
Qed.

Lemma publishPointCloud_with_colored ros pub m :
  publishPointCloud ros (with_colored m pub)
  = prod_map (with_colored m) id <$> publishPointCloud ros pub.
Proof.
  unfold publishPointCloud. simpl.
  destruct (for_upto _ _ _) as [pc'|]; [|done]. simpl.
  by destruct (negb _), (nh_ok ros).
Qed.

Lemma publishPointCloudRGB_with_pc ros pub pc :
  publishPointCloudRGB ros (with_pc pc pub)
  = prod_map (with_pc pc) id <$> publishPointCloudRGB ros pub.
Proof.
  unfold publishPointCloudRGB. simpl.
  destruct (for_upto _ _ _) as [pc'|]; [|done]. simpl.
  by destruct (negb _), (nh_ok ros).
Qed.

Lemma publishPointCloudRGB_with_colored ros pub m :
  publishPointCloudRGB ros (with_colored m pub)
  = prod_map (with_colored m) id <$> publishPointCloudRGB ros pub.
Proof.
  unfold publishPointCloudRGB. simpl.
  destruct (for_upto _ _ _) as [pc'|]; [|done]. simpl.
  by destruct (negb _), (nh_ok ros).
Qed.

Lemma publishConvergenceMap_with_pc ros pub pc :
  publishConvergenceMap ros (with_pc pc pub)
  = prod_map (with_pc pc) id <$> publishConvergenceMap ros pub.
Proof.
  unfold publishConvergenceMap. simpl.
  destruct (for_upto _ _ _) as [m|]; [|done]. simpl.
  by destruct (nh_ok ros).
Qed.

Lemma publishConvergenceMap_with_pc_rgb ros pub pc :
  publishConvergenceMap ros (with_pc_rgb pc pub)
  = prod_map (with_pc_rgb pc) id <$> publishConvergenceMap ros pub.
Proof.
  unfold publishConvergenceMap. simpl.
  destruct (for_upto _ _ _) as [m|]; [|done]. simpl.
  by destruct (nh_ok ros).
Qed.

Lemma publishPointCloud_shape ros pub pub' out :
  publishPointCloud ros pub = Some (pub', out) → pub' = with_pc (pc_ pub') pub.
Proof.
  unfold publishPointCloud. destruct (for_upto _ _ _) as [pc'|]; [|done].
  simpl. by destruct (negb _), (nh_ok ros); intros [= <- <-].
Qed.

Lemma publishPointCloudRGB_shape ros pub pub' out :
  publishPointCloudRGB ros pub = Some (pub', out) →
  pub' = with_pc_rgb (pc_rgb_ pub') pub.
Proof.
  unfold publishPointCloudRGB. destruct (for_upto _ _ _) as [pc'|]; [|done].
  simpl. by destruct (negb _), (nh_ok ros); intros [= <- <-].
Qed.

Lemma publishConvergenceMap_shape ros pub pub' out :
  publishConvergenceMap ros pub = Some (pub', out) →
  pub' = with_colored (colored_ pub') pub.
Proof.
  unfold publishConvergenceMap. destruct (for_upto _ _ _) as [m|]; [|done].
  simpl. by destruct (nh_ok ros); intros [= <- <-].
Qed.

(** X8.  The three operations commute: two of them called in either order
    leave the same publisher and publish the same message each, and one
    order has a result exactly when the other has. *)
Theorem operations_commute r1 r2 pub :
  let swap := λ x : Publisher * list Msg * list Msg, (x.1.1, x.2, x.1.2) in
  in_sequence (publishPointCloud r1) (publishPointCloudRGB r2) pub
  = swap <$> in_sequence (publishPointCloudRGB r2) (publishPointCloud r1) pub ∧
  in_sequence (publishPointCloud r1) (publishConvergenceMap r2) pub
  = swap <$> in_sequence (publishConvergenceMap r2) (publishPointCloud r1) pub ∧
  in_sequence (publishPointCloudRGB r1) (publishConvergenceMap r2) pub
  = swap <$> in_sequence (publishConvergenceMap r2) (publishPointCloudRGB r1) pub.
Proof.
  intros swap. unfold in_sequence. split_and!.
  - destruct (publishPointCloud r1 pub) as [[p1 o1]|] eqn:E1;
      destruct (publishPointCloudRGB r2 pub) as [[p2 o2]|] eqn:E2; simpl.
    + rewrite (publishPointCloud_shape _ _ _ _ E1).
      rewrite (publishPointCloudRGB_shape _ _ _ _ E2).
      rewrite publishPointCloudRGB_with_pc, publishPointCloud_with_pc_rgb.
      rewrite E1, E2. simpl.
      by rewrite (publishPointCloud_shape _ _ _ _ E1),
                 (publishPointCloudRGB_shape _ _ _ _ E2).
    + rewrite (publishPointCloud_shape _ _ _ _ E1).
      by rewrite publishPointCloudRGB_with_pc, E2.
    + rewrite (publishPointCloudRGB_shape _ _ _ _ E2).
      by rewrite publishPointCloud_with_pc_rgb, E1.
    + done.
  - destruct (publishPointCloud r1 pub) as [[p1 o1]|] eqn:E1;
      destruct (publishConvergenceMap r2 pub) as [[p2 o2]|] eqn:E2; simpl.
    + rewrite (publishPointCloud_shape _ _ _ _ E1).
      rewrite (publishConvergenceMap_shape _ _ _ _ E2).
      rewrite publishConvergenceMap_with_pc, publishPointCloud_with_colored.
      rewrite E1, E2. simpl.
      by rewrite (publishPointCloud_shape _ _ _ _ E1),
                 (publishConvergenceMap_shape _ _ _ _ E2).
    + rewrite (publishPointCloud_shape _ _ _ _ E1).
      by rewrite publishConvergenceMap_with_pc, E2.
    + rewrite (publishConvergenceMap_shape _ _ _ _ E2).
      by rewrite publishPointCloud_with_colored, E1.
    + done.
  - destruct (publishPointCloudRGB r1 pub) as [[p1 o1]|] eqn:E1;
      destruct (publishConvergenceMap r2 pub) as [[p2 o2]|] eqn:E2; simpl.
    + rewrite (publishPointCloudRGB_shape _ _ _ _ E1).
      rewrite (publishConvergenceMap_shape _ _ _ _ E2).
      rewrite publishConvergenceMap_with_pc_rgb, publishPointCloudRGB_with_colored.
      rewrite E1, E2. simpl.
      by rewrite (publishPointCloudRGB_shape _ _ _ _ E1),
                 (publishConvergenceMap_shape _ _ _ _ E2).
    + rewrite (publishPointCloudRGB_shape _ _ _ _ E1).
      by rewrite publishConvergenceMap_with_pc_rgb, E2.
    + rewrite (publishConvergenceMap_shape _ _ _ _ E2).
      by rewrite publishPointCloudRGB_with_colored, E1.
    + done.
Qed.

End Sequences.

Lemma uchar_to_Z_inj (a b : uchar) : uchar_to_Z a = uchar_to_Z b → a = b.
Proof.
  unfold uchar_to_Z. intros H%N2Z.inj.
  assert (Some a = Some b) as [= ->]; [|done].
  by rewrite <- !Byte.of_to_N, H.
Qed.

Lemma sublist_omap_filter {A B} (f : A → option B) (P : A → Prop)
    `{∀ a, Decision (P a)} (l : list A) :
  omap f (filter P l) `sublist_of` omap f l.
Proof.
  induction l as [|a l IH]; [done|].
  rewrite filter_cons. csimpl. case_decide; csimpl.
  - destruct (f a); [by apply sublist_skip | done].
  - destruct (f a); [by apply sublist_cons | done].
Qed.

Section More.
Context `{FA : FloatArith} `{CS : ConvergenceState}.
Implicit Types (dm : Depthmap) (pub : Publisher) (ros : Ros).

(** X9.  No method publishes while the node is down: a call whose every
    question to the runtime is answered "not ok" returns no message. *)
Theorem no_publication_when_down c pub pub' out :
  run_call c pub = Some (pub', out) →
  Forall (λ ros, nh_ok ros = false) (call_ros c) →
  out = [].
Proof.
  assert (∀ ros p p' o, nh_ok ros = false →
            publishDepthmap ros p = Some (p', o) → o = []) as HD.
  { intros ros p p' o Hok. unfold publishDepthmap. rewrite Hok. by intros [= _ <-]. }
  assert (∀ ros p p' o, nh_ok ros = false →
            publishPointCloud ros p = Some (p', o) → o = []) as HP.
  { intros ros p p' o Hok. unfold publishPointCloud. rewrite Hok.
    destruct (for_upto _ _ _); [|done]. simpl.
    by destruct (negb _); intros [= _ <-]. }
  assert (∀ ros p p' o, nh_ok ros = false →
            publishPointCloudRGB ros p = Some (p', o) → o = []) as HR.
  { intros ros p p' o Hok. unfold publishPointCloudRGB. rewrite Hok.
    destruct (for_upto _ _ _); [|done]. simpl.
    by destruct (negb _); intros [= _ <-]. }
  assert (∀ ros p p' o, nh_ok ros = false →
            publishConvergenceMap ros p = Some (p', o) → o = []) as HC.
  { intros ros p p' o Hok. unfold publishConvergenceMap. rewrite Hok.
    destruct (for_upto _ _ _); [|done]. simpl. by intros [= _ <-]. }
  destruct c as [ros|ros|ros|r1 r2 r3|ros]; simpl; intros E HF.
  - rewrite Forall_singleton in HF. by eapply HD.
  - rewrite Forall_singleton in HF. by eapply HP.
  - rewrite Forall_singleton in HF. by eapply HR.
  - rewrite !Forall_cons, Forall_nil in HF. destruct HF as (H1 & H2 & HF & _). unfold publishDepthmapAndPointCloud in E.
    destruct (publishDepthmap r1 pub) as [[p1 o1]|] eqn:E1; [|done].
    simpl in E.
    destruct (publishPointCloud r2 p1) as [[p2 o2]|] eqn:E2; [|done].
    simpl in E.
    destruct (publishPointCloudRGB r3 p2) as [[p3 o3]|] eqn:E3; [|done].
    simpl in E. injection E as _ <-.
    by rewrite (HD _ _ _ _ H1 E1), (HP _ _ _ _ H2 E2), (HR _ _ _ _ HF E3).
  - rewrite Forall_singleton in HF. by eapply HC.
Qed.

(** X10.  [publishDepthmapAndPointCloud] does what its three calls do on
    their own: it has a result exactly when both projections have one on
    the publisher it is given; it then publishes the depth map (if the
    node is up), then what the uncolored projection publishes, then what
    the colored one publishes, and leaves each cloud as its projection
    alone leaves it. *)
Theorem publishDepthmapAndPointCloud_composes r1 r2 r3 pub :
  publishDepthmapAndPointCloud r1 r2 r3 pub
  = '(p2, o2) ← publishPointCloud r2 pub;
    '(p3, o3) ← publishPointCloudRGB r3 pub;
    Some (mkPublisher (depthmap_ pub) (pc_ p2) (pc_rgb_ p3) (colored_ pub),
          (if nh_ok r1
           then [DepthImage "remode/depth"
                   (mkHeader "depthmap" (time_now r1)) "32FC1"
                   (getDepthmap (depthmap_ pub))]
           else [])
          ++ o2 ++ o3).
Proof.
  unfold publishDepthmapAndPointCloud.
  assert (publishDepthmap r1 pub
          = Some (pub, if nh_ok r1
                       then [DepthImage "remode/depth"
                               (mkHeader "depthmap" (time_now r1)) "32FC1"
                               (getDepthmap (depthmap_ pub))]
                       else [])) as ->
    by (unfold publishDepthmap; by destruct (nh_ok r1)).
  simpl.
  destruct (publishPointCloud r2 pub) as [[p2 o2]|] eqn:E2; [|done]. simpl.
  rewrite (publishPointCloud_shape _ _ _ _ E2).
  rewrite publishPointCloudRGB_with_pc.
  destruct (publishPointCloudRGB r3 pub) as [[p3 o3]|] eqn:E3; [|done]. simpl.
  by rewrite (publishPointCloudRGB_shape _ _ _ _ E3).
Qed.

(** X11.  [publishConvergenceMap] reads the convergence map at every pixel
    [(r, c)] of the grey reference image; it has no result when for one of
    them the buffer of the convergence map has no cell at the offset
    [at(r, c)] computes (r times the map's own [cols], plus c). *)
Theorem publishConvergenceMap_uncovered_pixel ros pub r c :
  Mat_inside (getReferenceImage (depthmap_ pub)) r c →
  Mat_at (getConvergenceMap (depthmap_ pub)) r c = None →
  publishConvergenceMap ros pub = None.
Proof.
  intros [Hr Hc] Hno. unfold publishConvergenceMap.
  rewrite (for_upto_fails _ _ r); [done..|].
  intros m. apply (for_upto_fails _ _ c); [done|].
  intros m'. unfold publishConvergenceMap_pixel. by rewrite Hno.
Qed.

Lemma rendering_at dm r c :
  publishConvergenceMap_pre dm →
  Mat_inside (getReferenceImage dm) r c →
  ∃ s g,
    Mat_at (getConvergenceMap dm) r c = Some s ∧
    Mat_at (getReferenceImage dm) r c = Some g ∧
    Mat_at (rendering dm) r c = Some (tint s (mkVec3b g g g)).
Proof.
  intros (Hi & Hc & Hs) Hin.
  destruct (Mat_at_is_Some (getReferenceImage dm) r c) as [g Eg]; [done..|].
  destruct (Mat_at_is_Some (getConvergenceMap dm) r c) as [s Es];
    [done | by eapply Mat_inside_same_size|].
  exists s, g. split_and!; [done..|].
  rewrite Mat_at_inside by done. simpl.
  rewrite Mat_at_inside in Eg by done.
  rewrite Mat_at_inside in Es by (by eapply Mat_inside_same_size).
  destruct Hs as [_ Hcc]. rewrite Hcc in Es.
  by rewrite lookup_zip_with, Es, list_lookup_fmap, Eg.
Qed.

(** X12.  The rendering changes at most one channel of a pixel: channel 1
    always holds the grey value, channel 0 holds it unless the state is
    CONVERGED, and channel 2 holds it unless the state is DIVERGED. *)
Theorem publishConvergenceMap_other_channels ros pub r c :
  publishConvergenceMap_pre (depthmap_ pub) →
  Mat_inside (getReferenceImage (depthmap_ pub)) r c →
  ∃ pub' out s g px,
    publishConvergenceMap ros pub = Some (pub', out) ∧
    Mat_at (getConvergenceMap (depthmap_ pub)) r c = Some s ∧
    Mat_at (getReferenceImage (depthmap_ pub)) r c = Some g ∧
    Mat_at (colored_ pub') r c = Some px ∧
    ch1 px = g ∧
    (s ≠ CONVERGED → ch0 px = g) ∧
    (s ≠ DIVERGED → ch2 px = g).
Proof.
  intros Hpre Hin. rewrite publishConvergenceMap_returns by done.
  destruct (rendering_at _ r c Hpre Hin) as (s & g & Es & Eg & Ep).
  eexists _, _, s, g, _. split_and!; [done..| | |].
  - unfold tint. by repeat case_decide.
  - intros Hs. unfold tint. rewrite decide_False by done. by case_decide.
  - intros Hs. unfold tint. case_decide; [done|]. by rewrite decide_False.
Qed.

Lemma fmap_xyz_projection dm :
  publishPointCloud_pre dm →
  xyz <$> projection dm
  = omap (λ yx, back_project dm yx.1 yx.2 <$> Mat_at (getDepthmap dm) yx.1 yx.2)
         (survivors dm).
Proof.
  intros Hpre. pose proof (survivors_points dm Hpre) as HF.
  unfold projection in *.
  induction HF as [|yx p l k [_ Hp] _ IH]; [done|].
  csimpl. rewrite IH. unfold point_of in Hp.
  destruct (Mat_at (getDepthmap dm) yx.1 yx.2) as [d|]; [|done]. simpl in *.
  destruct (Mat_at (getReferenceImage dm) yx.1 yx.2) as [i|]; [|done].
  simpl in Hp. injection Hp as <-. unfold xyz. simpl.
  by destruct (back_project _ _ _ _).
Qed.

Lemma fmap_xyz_projection_rgb dm :
  publishPointCloudRGB_pre dm →
  xyz_rgb <$> projection_rgb dm
  = omap (λ yx, back_project dm yx.1 yx.2 <$> Mat_at (getDepthmap dm) yx.1 yx.2)
         (survivors_rgb dm).
Proof.
  intros Hpre. pose proof (survivors_rgb_points dm Hpre) as HF.
  unfold projection_rgb in *.
  induction HF as [|yx p l k [_ Hp] _ IH]; [done|].
  csimpl. rewrite IH. unfold point_rgb_of in Hp.
  destruct (Mat_at (getDepthmap dm) yx.1 yx.2) as [d|]; [|done]. simpl in *.
  destruct (Mat_at (getReferenceImageRGB dm) yx.1 yx.2) as [i|]; [|done].
  simpl in Hp. injection Hp as <-. unfold xyz_rgb. simpl.
  by destruct (back_project _ _ _ _).
Qed.

(** X13.  On one snapshot the colored projection is a part of the
    uncolored one: the positions of the points it appends are, in the same
    order, among the positions the uncolored projection appends, so it
    never appends more points. *)
Theorem projection_rgb_within_projection dm :
  publishPointCloud_pre dm → publishPointCloudRGB_pre dm →
  (xyz_rgb <$> projection_rgb dm) `sublist_of` (xyz <$> projection dm) ∧
  (length (projection_rgb dm) ≤ length (projection dm))%nat.
Proof.
  intros H1 H2.
  assert ((xyz_rgb <$> projection_rgb dm) `sublist_of` (xyz <$> projection dm))
    as Hsub.
  { rewrite fmap_xyz_projection, fmap_xyz_projection_rgb by done.
    assert (survivors_rgb dm = filter (mask_is_1 dm) (survivors dm)) as ->.
    { unfold survivors_rgb, survivors. rewrite list_filter_filter.
      apply list_filter_iff. intros yx. tauto. }
    apply sublist_omap_filter. }
  split; [done|]. apply sublist_length in Hsub.
  by rewrite !length_fmap in Hsub.
Qed.

(** X14.  The packing loses nothing: two pixels with the same packed
    colour are the same pixel. *)
Theorem pack_rgb_inj (v1 v2 : Vec3b) : pack_rgb v1 = pack_rgb v2 → v1 = v2.
Proof.
  intros H. destruct v1 as [a0 a1 a2], v2 as [b0 b1 b2].
  pose proof (pack_rgb_low (mkVec3b a0 a1 a2)) as L1.
  pose proof (pack_rgb_middle (mkVec3b a0 a1 a2)) as M1.
  pose proof (pack_rgb_high (mkVec3b a0 a1 a2)) as H1.
  rewrite H in L1, M1, H1.
  rewrite pack_rgb_low in L1. rewrite pack_rgb_middle in M1.
  rewrite pack_rgb_high in H1. simpl in *.
  apply uchar_to_Z_inj in L1, M1, H1. by subst.
Qed.

End More.

#[global] Instance same_shape_preorder {T} : PreOrder (@same_shape T).
Proof.
  split.
  - intros m. by unfold same_shape.
  - intros a b c (? & ? & ?) (? & ? & ?). unfold same_shape.
    split_and!; congruence.
Qed.


Section Shape.
Context `{FA : FloatArith} `{CS : ConvergenceState}.



End Shape.

(** * The theorems on the sample snapshots *)

Import Binary32.

(** Preconditions on concrete snapshots are settled by evaluation. *)
Ltac by_evaluation := repeat split; vm_compute; congruence.

Example raster_2_3 :
  raster 2 3 = [(0, 0); (0, 1); (0, 2); (1, 0); (1, 1); (1, 2)].
Proof. reflexivity. Qed.

(** With fx = fy = 1, cx = cy = 0 and the identity pose, pixel (0,0) at
    depth 5 is the point (0, 0, 5). *)
Example back_project_origin :
  back_project Sample.dm 0 0 Sample.five = make_float3 0 0 Sample.five.
Proof. by vm_compute. Qed.

Example survivors_sample :
  survivors Sample.dm = [(0, 0); (1, 1)] ∧ survivors_rgb Sample.dm = [(0, 0)].
Proof. by vm_compute. Qed.

(** The colored projection of the sample publishes one point, that of
    pixel (0,0), with colour 0x0A141E for (R, G, B) = (10, 20, 30). *)
Example publishPointCloudRGB_sample :
  snd <$> publishPointCloudRGB Sample.up Sample.fresh
  = Some [CloudRGB "remode/rgb_pointcloud"
            (mkPointCloud (mkHeader "world" 1000)
               [mkPointTypeRGB 0 0 Sample.five 0x0A141E])].
Proof. by vm_compute. Qed.

(** Reads outside the grid that stay inside the buffer: under a 4 by 1
    header the four pixels of the 2 by 2 depth map read cells 0, 1, 1 and 2
    of the convergence map, so the states read are CONVERGED, UPDATE,
    UPDATE and DIVERGED; one point is projected, and the rendering tints
    pixel (0,0) blue and pixel (1,1) red. *)
Example reshaped_convergence_map :
  Mat_at (getConvergenceMap Sample.dm_reshaped) 1 1 = Some 3 ∧
  length <$> (points ∘ pc_ ∘ fst <$> publishPointCloud Sample.up Sample.fresh_reshaped)
  = Some 1%nat ∧
  data ∘ colored_ ∘ fst <$> publishConvergenceMap Sample.up Sample.fresh_reshaped
  = Some [mkVec3b xff x0a x0a; mkVec3b x14 x14 x14;
          mkVec3b x1e x1e x1e; mkVec3b x28 x28 xff].
Proof. by vm_compute. Qed.

Example rendering_sample :
  data (rendering Sample.dm)
  = [mkVec3b xff x0a x0a; mkVec3b x14 x14 x14;
     mkVec3b x1e x1e xff; mkVec3b xff x28 x28].
Proof. by vm_compute. Qed.

(** C2 fails on a cloud that holds points already: after one call on the
    sample snapshot, a second call on the same snapshot stores and
    publishes a cloud of four points, while two pixels are CONVERGED. *)
Lemma publishPointCloud_second_call_count :
  ∃ pub1 out1 pub2 pc,
    publishPointCloud Sample.up Sample.fresh = Some (pub1, out1) ∧
    publishPointCloud_pre (depthmap_ pub1) ∧
    publishPointCloud Sample.up pub1
    = Some (pub2, [Cloud "remode/pointcloud" pc]) ∧
    pc = pc_ pub2 ∧
    length (points pc) = 4%nat ∧
    count_CONVERGED (getConvergenceMap (depthmap_ pub1)) = 2%nat ∧
    length (points pc) ≠ count_CONVERGED (getConvergenceMap (depthmap_ pub1)).
Proof.
  eexists _, _, _, _. split; [reflexivity|]. split; [by_evaluation|].
  split; [reflexivity|]. split; [reflexivity|].
  split; [by vm_compute|]. split; [by vm_compute|].
  vm_compute. discriminate.
Qed.

Lemma publishPointCloud_converged_pixels_witness :
  publishPointCloud_pre (depthmap_ Sample.fresh) ∧
  ∃ pub' out new,
    publishPointCloud Sample.up Sample.fresh = Some (pub', out) ∧
    points (pc_ pub') = points (pc_ Sample.fresh) ++ new ∧
    length new = count_CONVERGED (getConvergenceMap (depthmap_ Sample.fresh)).
Proof.
  assert (publishPointCloud_pre (depthmap_ Sample.fresh)) as Hpre
    by by_evaluation.
  split; [exact Hpre|].
  destruct (publishPointCloud_converged_pixels Sample.up Sample.fresh Hpre)
    as (pub' & out & new & E & Ep & El & _).
  by exists pub', out, new.
Defined.

(** C3 fails without a mask: the sample snapshot has two CONVERGED pixels
    and no mask, and the call does not return a cloud with two more
    points; it has no result. *)
Lemma publishPointCloudRGB_without_mask :
  getReferenceMask (depthmap_ Sample.fresh_no_mask) = Mat_empty ∧
  count_CONVERGED (getConvergenceMap (depthmap_ Sample.fresh_no_mask)) = 2%nat ∧
  publishPointCloudRGB Sample.up Sample.fresh_no_mask = None ∧
  ¬ ∃ pub' out new,
      publishPointCloudRGB Sample.up Sample.fresh_no_mask = Some (pub', out) ∧
      points (pc_rgb_ pub') = points (pc_rgb_ Sample.fresh_no_mask) ++ new ∧
      length new
      = count_CONVERGED (getConvergenceMap (depthmap_ Sample.fresh_no_mask)).
Proof.
  assert (publishPointCloudRGB Sample.up Sample.fresh_no_mask = None) as E
    by reflexivity.
  split_and!; [done| by vm_compute | done |].
  intros (pub' & out & new & E' & _). congruence.
Qed.

Lemma publishPointCloudRGB_converged_mask_1_witness :
  publishPointCloudRGB_pre (depthmap_ Sample.fresh) ∧
  (∃ pub' out new,
     publishPointCloudRGB Sample.up Sample.fresh = Some (pub', out) ∧
     points (pc_rgb_ pub') = points (pc_rgb_ Sample.fresh) ++ new ∧
     length new
     = count_CONVERGED_mask_1 (getConvergenceMap (depthmap_ Sample.fresh))
                              (getReferenceMask (depthmap_ Sample.fresh))) ∧
  converged (depthmap_ Sample.fresh_no_mask) (0, 0) ∧
  data (getReferenceMask (depthmap_ Sample.fresh_no_mask)) = [] ∧
  publishPointCloudRGB Sample.up Sample.fresh_no_mask = None.
Proof.
  assert (publishPointCloudRGB_pre (depthmap_ Sample.fresh)) as Hpre
    by by_evaluation.
  split; [exact Hpre|]. split.
  - destruct (proj1 (publishPointCloudRGB_converged_mask_1
                       Sample.up Sample.fresh) Hpre)
      as (pub' & out & new & E & Ep & El & _).
    by exists pub', out, new.
  - assert (converged (depthmap_ Sample.fresh_no_mask) (0, 0)) as Hcv
      by (by vm_compute).
    split; [exact Hcv|]. split; [reflexivity|].
    refine (proj2 (publishPointCloudRGB_converged_mask_1
                     Sample.up Sample.fresh_no_mask) 0 0 _ Hcv eq_refl).
    by_evaluation.
Defined.

Lemma pack_rgb_round_trip_witness :
  ∃ p, publishPointCloudRGB_pixel Sample.dm 0 0 PointCloud_new
       = Some (push_back PointCloud_new p) ∧
       unpack_rgb (q_rgb p) = (10, 20, 30).
Proof.
  destruct (pack_rgb_round_trip (mkVec3b x1e x14 x0a))
    as (_ & _ & _ & _ & _ & _ & H).
  destruct (H Sample.dm 0 0 Sample.five x01 PointCloud_new)
    as (p & E & _ & Eu); [by vm_compute..|].
  by exists p.
Defined.

Lemma publishConvergenceMap_pixels_witness :
  publishConvergenceMap_pre (depthmap_ Sample.fresh) ∧
  ∃ pub' out,
    publishConvergenceMap Sample.up Sample.fresh = Some (pub', out) ∧
    rows (colored_ pub') = 2 ∧ cols (colored_ pub') = 2.
Proof.
  assert (publishConvergenceMap_pre (depthmap_ Sample.fresh)) as Hpre
    by by_evaluation.
  split; [exact Hpre|].
  destruct (publishConvergenceMap_pixels Sample.up Sample.fresh Hpre)
    as (pub' & out & E & _ & Er & Ec & _).
  by exists pub', out.
Defined.

(** C6 fails on a DIVERGED pixel: the one-pixel sample has no CONVERGED
    pixel, and its rendering is not the grey image in three channels. *)
Lemma publishConvergenceMap_diverged_pixel :
  (CONVERGED ∉ data (getConvergenceMap (depthmap_ Sample.fresh_diverged))) ∧
  ∃ pub' out,
    publishConvergenceMap Sample.up Sample.fresh_diverged = Some (pub', out) ∧
    colored_ pub'
    ≠ cvtColor_GRAY2BGR (getReferenceImage (depthmap_ Sample.fresh_diverged)).
Proof.
  split.
  - intros H%list_elem_of_singleton. vm_compute in H. discriminate.
  - eexists _, _. split; [reflexivity|]. vm_compute. discriminate.
Qed.

Lemma nothing_converged_witness :
  (CONVERGED ∉ data (getConvergenceMap (depthmap_ Sample.fresh_diverged))) ∧
  ∃ pub' out,
    publishPointCloud Sample.up Sample.fresh_diverged = Some (pub', out) ∧
    points (pc_ pub') = [] ∧ out = [].
Proof.
  assert (CONVERGED ∉ data (getConvergenceMap (depthmap_ Sample.fresh_diverged)))
    as Hno.
  { intros H%list_elem_of_singleton. vm_compute in H. discriminate. }
  split; [exact Hno|].
  destruct (proj1 (nothing_converged Sample.up Sample.fresh_diverged Hno))
    as (pub' & out & E & Ep & Eo); [by_evaluation|].
  exists pub', out. split; [done|]. split; [done|]. by apply Eo.
Defined.

Lemma calls_leave_depthmap_witness :
  ∃ pub' out,
    run_call (CallConvergenceMap Sample.up) Sample.fresh = Some (pub', out) ∧
    depthmap_ pub' = depthmap_ Sample.fresh.
Proof.
  assert (is_Some (run_call (CallConvergenceMap Sample.up) Sample.fresh))
    as [[pub' out] E] by (eexists; reflexivity).
  exists pub', out. split; [done|].
  exact (proj1 (calls_leave_depthmap _ _ _ _ E)).
Defined.

(** A history with calls on clouds that hold points: each projection is
    called on the fresh publisher, the depth map is replaced, and each
    projection is called again. *)
Lemma clouds_only_grow_witness :
  ∃ pub1 pub2,
    steps Sample.fresh pub1 ∧ steps pub1 pub2 ∧
    length (points (pc_ pub1)) = 2%nat ∧
    length (points (pc_rgb_ pub1)) = 1%nat ∧
    length (points (pc_ pub2)) = 4%nat ∧
    length (points (pc_rgb_ pub2)) = 2%nat ∧
    points (pc_ pub1) `prefix_of` points (pc_ pub2) ∧
    points (pc_rgb_ pub1) `prefix_of` points (pc_rgb_ pub2).
Proof.
  eexists _, _.
  assert (∀ c pub pub' out, run_call c pub = Some (pub', out) →
            steps pub pub') as Hcall.
  { intros c pub pub' out E.
    eapply steps_step; [by eapply step_call | apply steps_refl]. }
  assert (∀ a b c, steps a b → steps b c → steps a c) as Htrans.
  { intros a b c Hab. induction Hab; [done|].
    intros Hc. eapply steps_step; [done|]. auto. }
  split.
  { eapply Htrans.
    - eapply (Hcall (CallPointCloud Sample.up)). reflexivity.
    - eapply (Hcall (CallPointCloudRGB Sample.up)). reflexivity. }
  match goal with
  | |- steps ?p1 ?p2 ∧ _ =>
      assert (steps p1 p2) as H
  end.
  { eapply steps_step; [apply (step_update Sample.dm_other)|].
    eapply Htrans.
    - eapply (Hcall (CallPointCloud Sample.up)). reflexivity.
    - eapply (Hcall (CallPointCloudRGB Sample.up)). reflexivity. }
  split; [exact H|].
  split; [by vm_compute|]. split; [by vm_compute|].
  split; [by vm_compute|]. split; [by vm_compute|].
  destruct clouds_only_grow as (_ & _ & _ & Hsteps).
  exact (Hsteps _ _ H).
Defined.

Lemma publishPointCloudRGB_mask_not_1_witness :
  Mat_at (getReferenceMask (depthmap_ Sample.fresh)) 1 1 = Some xff ∧
  converged (depthmap_ Sample.fresh) (1, 1) ∧
  (1, 1) ∉ survivors_rgb (depthmap_ Sample.fresh).
Proof.
  assert (Mat_at (getReferenceMask (depthmap_ Sample.fresh)) 1 1 = Some xff)
    as Em by (by vm_compute).
  split; [exact Em|]. split; [by vm_compute|].
  refine (proj1 (proj2 (publishPointCloudRGB_mask_not_1
                          Sample.up Sample.fresh 1 1 xff _ Em _))).
  - by_evaluation.
  - vm_compute. discriminate.
Defined.

(** C1 fails for the projections: on the sample snapshot, left as it is
    and with the same answers from the runtime, the second call of each
    projection does not publish what the first call published. *)
Lemma projection_twice_differs :
  (∃ pub1 out1 pub2 out2,
     publishPointCloud Sample.up Sample.fresh = Some (pub1, out1) ∧
     publishPointCloud Sample.up pub1 = Some (pub2, out2) ∧
     depthmap_ pub1 = depthmap_ Sample.fresh ∧
     out1 ≠ out2) ∧
  (∃ pub1 out1 pub2 out2,
     publishPointCloudRGB Sample.up Sample.fresh = Some (pub1, out1) ∧
     publishPointCloudRGB Sample.up pub1 = Some (pub2, out2) ∧
     depthmap_ pub1 = depthmap_ Sample.fresh ∧
     out1 ≠ out2).
Proof.
  split.
  - eexists _, _, _, _. split; [reflexivity|].
    split; [reflexivity|]. split; [reflexivity|].
    vm_compute. discriminate.
  - eexists _, _, _, _. split; [reflexivity|].
    split; [reflexivity|]. split; [reflexivity|].
    vm_compute. discriminate.
Qed.

Lemma repeated_calls_witness :
  publishConvergenceMap_pre (depthmap_ Sample.fresh) ∧
  ∃ pub1 out1 pub2 out2,
    publishConvergenceMap Sample.up Sample.fresh = Some (pub1, out1) ∧
    publishConvergenceMap Sample.up pub1 = Some (pub2, out2) ∧
    out2 = out1 ∧ pub2 = pub1.
Proof.
  assert (publishConvergenceMap_pre (depthmap_ Sample.fresh)) as Hpre
    by by_evaluation.
  split; [exact Hpre|].
  destruct (proj1 (repeated_calls Sample.up Sample.up Sample.fresh) Hpre)
    as (pub1 & out1 & pub2 & out2 & E1 & E2 & _ & Hsame).
  exists pub1, out1, pub2, out2. split; [done|]. split; [done|].
  by apply Hsame.
Defined.

Lemma projections_ignore_gated_out_pixels_witness :
  getDepthmap (depthmap_ Sample.fresh) ≠ getDepthmap (depthmap_ Sample.fresh_other) ∧
  ∃ pub1' pub2' out,
    publishPointCloud Sample.up Sample.fresh = Some (pub1', out) ∧
    publishPointCloud Sample.up Sample.fresh_other = Some (pub2', out) ∧
    pc_ pub1' = pc_ pub2'.
Proof.
  split; [vm_compute; discriminate|].
  refine (proj1 (projections_ignore_gated_out_pixels
                   Sample.up Sample.fresh Sample.fresh_other
                   eq_refl eq_refl eq_refl eq_refl eq_refl eq_refl eq_refl)
            _ _ _ eq_refl).
  - by_evaluation.
  - by_evaluation.
  - intros y x H. unfold converged, Mat_at in *. cbn [fst snd] in *.
    change (cols _) with 2 in *. case_decide; [|done].
    revert H. generalize (Mat_index 2 y x). intros i H.
    destruct i as [|[|[|[|i]]]];
      vm_compute in H |- *; (done || discriminate).
Defined.

(** ** The further properties on the sample snapshots *)

(** The snapshot without reference images and mask, none of whose pixels
    is CONVERGED, is projected all the same; the one whose convergence map
    lacks the second row is not. *)
Lemma publishPointCloud_defined_iff_witness :
  getReferenceImage (depthmap_ Sample.fresh_bare) = Mat_empty ∧
  is_Some (publishPointCloud Sample.up Sample.fresh_bare) ∧
  ¬ is_Some (publishPointCloud Sample.up Sample.fresh_short).
Proof.
  split; [reflexivity|]. split.
  - apply (proj1 (publishPointCloud_defined_iff Sample.up Sample.fresh_bare)).
    intros y x Hy Hx. simpl in Hy, Hx.
    assert (y = 0) as -> by lia. assert (x = 0) as -> by lia.
    split_and!; [by eexists..|]. intros H. vm_compute in H. discriminate.
  - intros Hs.
    apply (proj1 (publishPointCloud_defined_iff Sample.up Sample.fresh_short))
      in Hs.
    destruct (Hs 1 0) as (_ & [s Es] & _); [simpl; lia..|].
    vm_compute in Es. discriminate.
Defined.

Lemma publishPointCloudRGB_defined_iff_witness :
  getReferenceMask (depthmap_ Sample.fresh_bare) = Mat_empty ∧
  is_Some (publishPointCloudRGB Sample.up Sample.fresh_bare) ∧
  ¬ is_Some (publishPointCloudRGB Sample.up Sample.fresh_no_mask).
Proof.
  split; [reflexivity|]. split.
  - apply (proj1 (publishPointCloudRGB_defined_iff Sample.up Sample.fresh_bare)).
    intros y x Hy Hx. simpl in Hy, Hx.
    assert (y = 0) as -> by lia. assert (x = 0) as -> by lia.
    split_and!; [by eexists..|]. intros H. vm_compute in H. discriminate.
  - intros Hs.
    apply (proj1 (publishPointCloudRGB_defined_iff Sample.up Sample.fresh_no_mask))
      in Hs.
    destruct (Hs 0 0) as (_ & _ & Hm); [simpl; lia..|].
    destruct Hm as [[m Em] _]; [by vm_compute|].
    vm_compute in Em. discriminate.
Defined.

Lemma publishPointCloud_publication_witness :
  ∃ pub' out,
    publishPointCloud Sample.down Sample.fresh = Some (pub', out) ∧
    length (points (pc_ pub')) = 2%nat ∧ out = [].
Proof.
  assert (is_Some (publishPointCloud Sample.down Sample.fresh))
    as [[pub' out] E] by (eexists; reflexivity).
  destruct (publishPointCloud_publication _ _ _ _ E) as (_ & Ep & _ & Hd).
  exists pub', out. split; [done|]. split.
  - rewrite Ep. by vm_compute.
  - apply Hd. by left.
Defined.

Lemma publishPointCloudRGB_publication_witness :
  ∃ pub' out,
    publishPointCloudRGB Sample.up Sample.fresh = Some (pub', out) ∧
    out = [CloudRGB "remode/rgb_pointcloud" (pc_rgb_ pub')] ∧
    header (pc_rgb_ pub') = mkHeader "world" 1000.
Proof.
  assert (is_Some (publishPointCloudRGB Sample.up Sample.fresh))
    as [[pub' out] E] by (eexists; reflexivity).
  destruct (publishPointCloudRGB_publication _ _ _ _ E) as (_ & Ep & Hu & _).
  destruct Hu as [Hh Ho]; [done| |by exists pub', out].
  rewrite Ep. by vm_compute.
Defined.

Lemma projections_publish_old_points_witness :
  ∃ pub',
    publishPointCloud Sample.up Sample.stale
    = Some (pub', [Cloud "remode/pointcloud"
                     (mkPointCloud (mkHeader "world" 1000)
                        [mkPointType 0 0 Sample.five Sample.five])]).
Proof.
  refine (proj1 (projections_publish_old_points Sample.up Sample.stale _ eq_refl)
            _ _).
  - intros H%list_elem_of_singleton. vm_compute in H. discriminate.
  - by_evaluation.
  - by vm_compute.
Defined.

Lemma first_publishPointCloud_witness :
  publishPointCloud_pre Sample.dm ∧
  length (projection Sample.dm) = 2%nat ∧
  snd <$> publishPointCloud Sample.up Sample.fresh
  = Some [Cloud "remode/pointcloud"
            (mkPointCloud (mkHeader "world" 1000) (projection Sample.dm))].
Proof.
  assert (publishPointCloud_pre Sample.dm) as Hpre by by_evaluation.
  split; [exact Hpre|].
  destruct (first_publishPointCloud Sample.dm (λ _, Sample.black) Sample.up Hpre)
    as [Hl Ho].
  split; [by rewrite Hl|]. exact Ho.
Defined.

Lemma repeated_projection_grows_witness :
  ∃ pub' out,
    run_calls (CallPointCloud <$> [Sample.up; Sample.down; Sample.up]) Sample.fresh
    = Some (pub', out) ∧
    length (points (pc_ pub')) = 6%nat.
Proof.
  destruct (proj1 (repeated_projection_grows
                     [Sample.up; Sample.down; Sample.up] Sample.fresh))
    as (pub' & out & E & _ & Ep).
  - apply publishPointCloud_pre_defined. by_evaluation.
  - exists pub', out. split; [done|]. rewrite Ep. by vm_compute.
Defined.

Lemma no_publication_when_down_witness :
  ∃ pub',
    run_call (CallDepthmapAndPointCloud Sample.down Sample.down Sample.down)
             Sample.fresh
    = Some (pub', []) ∧
    length (points (pc_ pub')) = 2%nat.
Proof.
  assert (is_Some (run_call (CallDepthmapAndPointCloud
                               Sample.down Sample.down Sample.down) Sample.fresh))
    as [[pub' out] E] by (eexists; reflexivity).
  assert (out = []) as ->.
  { apply (no_publication_when_down _ _ _ _ E). by repeat constructor. }
  exists pub'. split; [done|].
  assert (Some (length (points (pc_ pub'))) = Some 2%nat) as [= ->]; [|done].
  change (Some (length (points (pc_ pub'))))
    with (length ∘ points ∘ pc_ ∘ fst <$> Some (pub', @nil Msg)).
  rewrite <- E. by vm_compute.
Defined.

Lemma publishConvergenceMap_uncovered_pixel_witness :
  Mat_inside (getReferenceImage (depthmap_ Sample.fresh_short)) 1 0 ∧
  publishConvergenceMap Sample.up Sample.fresh_short = None.
Proof.
  assert (Mat_inside (getReferenceImage (depthmap_ Sample.fresh_short)) 1 0)
    as Hin by by_evaluation.
  split; [exact Hin|].
  by apply (publishConvergenceMap_uncovered_pixel _ _ 1 0 Hin).
Defined.

Lemma publishConvergenceMap_other_channels_witness :
  ∃ pub' out px,
    publishConvergenceMap Sample.up Sample.fresh = Some (pub', out) ∧
    Mat_at (colored_ pub') 1 0 = Some px ∧
    ch0 px = x1e ∧ ch1 px = x1e.
Proof.
  destruct (publishConvergenceMap_other_channels Sample.up Sample.fresh 1 0)
    as (pub' & out & s & g & px & E & Es & Eg & Ep & H1 & H0 & _);
    [by_evaluation..|].
  exists pub', out, px. split; [done|]. split; [done|].
  assert (g = x1e) as -> by (vm_compute in Eg; congruence).
  split; [|done]. apply H0. vm_compute in Es. injection Es as <-.
  by vm_compute.
Defined.

Lemma projection_rgb_within_projection_witness :
  (length (projection_rgb Sample.dm) ≤ length (projection Sample.dm))%nat.
Proof.
  refine (proj2 (projection_rgb_within_projection Sample.dm _ _)); by_evaluation.
Defined.

Lemma pack_rgb_inj_witness :
  mkVec3b x1e x14 x0a = mkVec3b x1e x14 x0a.
Proof. exact (pack_rgb_inj _ _ eq_refl). Defined.

